(** * Tester.py: the test-execution engine of the grading harness

    A shallow embedding of [src/Tester.py] and the properties of its
    scoring, error classification, grading loops, report header and
    argument isolation.

    The values are [None], [bool], [int], [str] and lists of them; there
    is no [float].  A resolved attribute is a callable, so that
    [functools.partial] and [copy.deepcopy] return in the binding loop of
    [test_one_arg_set]; loading a module and calling a function have an
    outcome, a value or an exception.

    Layout:
    - Python values with value semantics, exceptions and outcomes;
    - the constants, [run_with_timeout], [test_one_arg_set], the result
      classes, [test_func], [grade_section] and the report header, with an
      outcome for every call so that a propagating exception is visible;
    - the scenario of the specification, as data;
    - [Module Store]: the binding loop and the two calls of
      [test_one_arg_set] over a store of mutable list objects, where
      aliasing, in-place mutation and [copy.deepcopy] are visible;
    - the theorems: scoring, the timeout executor, the argument-set
      evaluator, the function evaluator, the section grader, the report
      header, further properties of the engine and of the report, and the
      independence of the copied arguments. *)

From Stdlib Require Import ZArith Ascii DecimalString.
From stdpp Require Import base list gmap strings.

Local Open Scope Z_scope.
Local Open Scope string_scope.
Local Open Scope list_scope.
Set Warnings "-register-all".

(** ** Python values *)

(** The values the graded functions exchange: [None], [bool], [int], [str]
    and (nested) lists.  In this first part lists are values; the store of
    mutable list objects is in [Module Store]. *)
Inductive pyval : Type :=
  | VNone
  | VBool (b : bool)
  | VInt (z : Z)
  | VStr (s : string)
  | VList (l : list pyval).

(** Python's [==] on these values.  [bool] is a subclass of [int], so
    [True == 1]; [None] equals only [None]; lists compare element-wise. *)
Fixpoint py_eq (a b : pyval) : bool :=
  match a, b with
  | VNone, VNone => true
  | VBool x, VBool y => Z.eqb (Z.b2z x) (Z.b2z y)
  | VBool x, VInt y => Z.eqb (Z.b2z x) y
  | VInt x, VBool y => Z.eqb x (Z.b2z y)
  | VInt x, VInt y => Z.eqb x y
  | VStr x, VStr y => String.eqb x y
  | VList xs, VList ys =>
      (fix go (xs ys : list pyval) : bool :=
         match xs, ys with
         | [], [] => true
         | x :: xs', y :: ys' => py_eq x y && go xs' ys'
         | _, _ => false
         end) xs ys
  | _, _ => false
  end.

(** [copy.deepcopy] on values: a structural copy. *)
Fixpoint deepcopy (v : pyval) : pyval :=
  match v with
  | VList l => VList (map deepcopy l)
  | _ => v
  end.

(** ** Exceptions and outcomes *)

(** The exception classes the [except] clauses of the source tell apart.
    [stopit.utils.TimeoutException] derives from [Exception]; [SystemExit],
    [KeyboardInterrupt] and [GeneratorExit] derive from [BaseException]
    only. *)
Inductive py_exc : Type :=
  | TimeoutException
  | ExceptionSub (cls : string)
  | BaseExceptionSub (cls : string).

(** [except stopit.utils.TimeoutException] *)
Definition is_TimeoutException (e : py_exc) : bool :=
  match e with TimeoutException => true | _ => false end.

(** [except Exception] *)
Definition is_Exception (e : py_exc) : bool :=
  match e with BaseExceptionSub _ => false | _ => true end.

(** What evaluating a Python expression gives: a value, or a raised
    exception that propagates until an [except] clause matches it. *)
Inductive outcome (A : Type) : Type :=
  | Returns (a : A)
  | Raises (e : py_exc).
Arguments Returns {A} a.
Arguments Raises {A} e.

(** Sequencing: the first exception raised propagates. *)
#[global] Instance outcome_ret : MRet outcome := @Returns.
#[global] Instance outcome_bind : MBind outcome := λ A B k m,
  match m with
  | Returns a => k a
  | Raises e => Raises e
  end.

(** ** Callables *)

(** A callable is its behaviour on a list of positional arguments together
    with the arguments [functools.partial] has bound so far. *)
Record callable : Type := mk_callable {
  fn : list pyval → outcome pyval;
  bound : list pyval
}.

(** [partial(f, a)]: one more positional argument, after those bound. *)
Definition partial (f : callable) (a : pyval) : callable :=
  {| fn := fn f; bound := bound f ++ [a] |}.

(** [f()] *)
Definition call (f : callable) : outcome pyval := fn f (bound f).

(** ** Constants *)

Definition nl : string := String (Ascii.ascii_of_nat 10) EmptyString.

Fixpoint str_repeat (s : string) (n : nat) : string :=
  match n with
  | O => ""
  | S n' => s +:+ str_repeat s n'
  end.

Definition SEPERATOR : string := str_repeat "#" 15.
Definition TIMEOUT_SEC : Z := 5.
Definition INFINITE_LOOP_STR : string :=
  "Function call did not return in < 5sec, likely an infinite loop" +:+ nl.
Definition FUNC_TEST_HEADER : string :=
  SEPERATOR +:+ " function: %s, score: %d/%d" +:+ SEPERATOR +:+ nl.
Definition RUN_TIME_ERR_STR : string :=
  "An error ocurred during excuting of your function" +:+ nl.
Definition LOAD_TIME_ERR_STR : string :=
  "An error occured when loading your function for grading" +:+ nl.

(** ** run_with_timeout *)

(** The timer of [ThreadingTimeout(TIMEOUT_SEC)] raises [TimeoutException]
    inside the running call, so a call that timed out is a call that
    [Raises TimeoutException].  An exception neither [except] clause
    matches leaves the [with] block ([ThreadingTimeout.__exit__] swallows
    only [TimeoutException]) and so leaves the function. *)
Definition run_with_timeout (func : callable)
  : outcome (bool * pyval * option string) :=
  let exc_str : option string := None in
  let return_val := VNone in
  let time_out := false in
  match call func with
  | Returns v => Returns (time_out, v, exc_str)
  | Raises e =>
      if is_TimeoutException e then Returns (true, return_val, exc_str)
      else if is_Exception e then Returns (time_out, return_val, Some RUN_TIME_ERR_STR)
      else Raises e
  end.

(** ** ArgSetTestResult *)

Record ArgSetTestResult : Type := mk_ArgSetTestResult {
  inputs : list pyval;
  expected : pyval;
  actual : pyval;
  exception_str : option string;
  is_correct : bool
}.

(** [ArgSetTestResult.__init__] *)
Definition ArgSetTestResult_init (inputs : list pyval) (expected actual : pyval)
    (exception_str : option string) : ArgSetTestResult :=
  {| inputs := inputs;
     expected := expected;
     actual := actual;
     exception_str := exception_str;
     is_correct := py_eq expected actual |}.

(** Truth value of an optional string: [None] and [''] are false. *)
Definition truthy (o : option string) : bool :=
  match o with
  | None => false
  | Some s => negb (String.eqb s "")
  end.

(** ** test_one_arg_set *)

(** The loop that binds the arguments: each argument is deep-copied once
    for the student's function and once more for the solution's. *)
Definition bind_arg_set (arg_set : list pyval) (stf_func sol_func : callable)
  : callable * callable :=
  fold_left
    (λ '(stf_func, sol_func) arg,
       (partial stf_func (deepcopy arg), partial sol_func (deepcopy arg)))
    arg_set (stf_func, sol_func).

Definition test_one_arg_set (arg_set : list pyval) (stf_func sol_func : callable)
  : outcome ArgSetTestResult :=
  let '(stf_func, sol_func) := bind_arg_set arg_set stf_func sol_func in
  '(is_timeout, return_val, exc_str) ← run_with_timeout stf_func;
  answer_key ← call sol_func;
  let arg_set_partial := ArgSetTestResult_init arg_set answer_key in
  if (is_timeout : bool) then Returns (arg_set_partial VNone (Some INFINITE_LOOP_STR))
  else if truthy exc_str then Returns (arg_set_partial VNone exc_str)
  else Returns (arg_set_partial return_val None).

(** ** FuncTestResult *)

Record FuncTestResult : Type := mk_FuncTestResult {
  function_name : string;
  score : Z;
  arg_sets_res : list ArgSetTestResult;
  exc : bool
}.

(** [FuncTestResult.__init__] *)
Definition FuncTestResult_init (function_name : string) (score : Z) (exc : bool)
  : FuncTestResult :=
  {| function_name := function_name;
     score := score;
     arg_sets_res := [];
     exc := exc |}.

Definition add_set_result (self : FuncTestResult) (result : ArgSetTestResult)
  : FuncTestResult :=
  {| function_name := function_name self;
     score := score self;
     arg_sets_res := arg_sets_res self ++ [result];
     exc := exc self |}.

(** The [for] loop of [calc_score]: the first incorrect result returns 0. *)
Fixpoint calc_score_loop (results : list ArgSetTestResult) (full : Z) : Z :=
  match results with
  | [] => full
  | set_result :: rest =>
      if negb (is_correct set_result) then 0 else calc_score_loop rest full
  end.

Definition calc_score (self : FuncTestResult) : Z :=
  if exc self then 0
  else calc_score_loop (arg_sets_res self) (score self).

(** ** The collaborators: Func, StudentFile, Section, modules *)

Module Func.
(** [class Func] *)
Record t : Type := mk {
  name : string;
  arg_sets : list (list pyval);
  score : Z;
  testResults : list FuncTestResult
}.
End Func.

(** Modelled from the spec: the [StudentFile] class is not in the source;
    a student submission is its source artifact, here the module name
    [file_xext()] returns, and the ordered list of results accumulated
    across the graded functions. *)
Record StudentFile : Type := mk_StudentFile {
  file_xext : string;
  function_test_results : list FuncTestResult
}.

(** Modelled from the spec: the [Section] class is not in the source; a
    section is a collection of student submissions. *)
Record SectionT : Type := mk_Section {
  student_files : list StudentFile
}.

(** A loaded module: its attributes that are callables. *)
Definition module : Type := string → option callable.

(** [__import__]: loading a module runs its top-level code, which may
    raise anything. *)
Definition importer : Type := string → outcome module.

Definition getattr (m : module) (name : string) : outcome callable :=
  match m name with
  | Some f => Returns f
  | None => Raises (ExceptionSub "AttributeError")
  end.

(** [getattr(__import__(module_name), func_name)] *)
Definition resolve (imp : importer) (module_name func_name : string)
  : outcome callable :=
  m ← imp module_name; getattr m func_name.

(** ** Loops over mutable state *)

(** [for x in xs: body], where [body] updates a state and may raise: the
    loop stops at the first exception, keeping the state reached. *)
Fixpoint for_each {S X : Type} (body : X → S → S * outcome unit)
    (xs : list X) (s : S) : S * outcome unit :=
  match xs with
  | [] => (s, Returns tt)
  | x :: rest =>
      match body x s with
      | (s', Returns _) => for_each body rest s'
      | (s', Raises e) => (s', Raises e)
      end
  end.

(** ** test_func *)

(** [stf.function_test_results.append(func_result)] *)
Definition append_result (stf : StudentFile) (func_result : FuncTestResult)
  : StudentFile :=
  {| file_xext := file_xext stf;
     function_test_results := function_test_results stf ++ [func_result] |}.

(** [func_result.add_set_result(set_result)], where [func_result] is the
    object appended at position [i] of [stf.function_test_results]: the list
    holds the object itself, so the update shows there. *)
Definition add_set_result_at (i : nat) (set_result : ArgSetTestResult)
    (stf : StudentFile) : StudentFile :=
  {| file_xext := file_xext stf;
     function_test_results :=
       alter (λ func_result, add_set_result func_result set_result) i
             (function_test_results stf) |}.

Definition test_func (imp : importer) (func : Func.t) (stf : StudentFile)
    (sol_name : string) : StudentFile * outcome unit :=
  match resolve imp sol_name (Func.name func) with
  | Raises e => (stf, Raises e)
  | Returns sol_func =>
      match resolve imp (file_xext stf) (Func.name func) with
      | Raises e =>
          if is_Exception e then
            let func_result :=
              FuncTestResult_init (Func.name func) (Func.score func) true in
            (append_result stf func_result, Returns tt)
          else (stf, Raises e)
      | Returns sft_func =>
          let func_result :=
            FuncTestResult_init (Func.name func) (Func.score func) false in
          let i := length (function_test_results stf) in
          let stf := append_result stf func_result in
          for_each
            (λ arg_set stf,
               match test_one_arg_set arg_set sft_func sol_func with
               | Returns set_result =>
                   (add_set_result_at i set_result stf, Returns tt)
               | Raises e => (stf, Raises e)
               end)
            (Func.arg_sets func) stf
      end
  end.

(** ** grade_section *)

(** The outer loop: each student file is an object the inner loop updates
    in place. *)
Fixpoint grade_student_files (imp : importer) (sol_fname : string)
    (funcs : list Func.t) (stfs : list StudentFile)
  : list StudentFile * outcome unit :=
  match stfs with
  | [] => ([], Returns tt)
  | stf :: rest =>
      match for_each (λ func stf, test_func imp func stf sol_fname) funcs stf with
      | (stf', Returns _) =>
          let '(rest', o) := grade_student_files imp sol_fname funcs rest in
          (stf' :: rest', o)
      | (stf', Raises e) => (stf' :: rest, Raises e)
      end
  end.

Definition grade_section (imp : importer) (sol_fname : string)
    (funcs : list Func.t) (section : SectionT) : SectionT * outcome unit :=
  let '(stfs, o) :=
    grade_student_files imp sol_fname funcs (student_files section) in
  ({| student_files := stfs |}, o).

(** ** The report header *)

(** [str(n)] for an [int]. *)
Definition str_int (z : Z) : string := NilZero.string_of_int (Z.to_int z).

(** An argument of the [%] operator. *)
Inductive fmt_arg : Type :=
  | FStr (s : string)
  | FInt (z : Z).

Definition TypeError : py_exc := ExceptionSub "TypeError".
Definition ValueError : py_exc := ExceptionSub "ValueError".

(** [template % args] for the conversions [%s], [%d] and [%%]. *)
Fixpoint py_format (template : string) (args : list fmt_arg) : outcome string :=
  match template with
  | EmptyString =>
      match args with
      | [] => Returns ""
      | _ :: _ => Raises TypeError
      end
  | String c EmptyString =>
      if Ascii.eqb c "%"%char then Raises ValueError
      else match args with
           | [] => Returns (String c "")
           | _ :: _ => Raises TypeError
           end
  | String c (String d rest as tail) =>
      if Ascii.eqb c "%"%char then
        if Ascii.eqb d "%"%char then
          s ← py_format rest args; mret (String "%"%char s)
        else
          match args with
          | [] => Raises TypeError
          | a :: args' =>
              if Ascii.eqb d "s"%char then
                s ← py_format rest args';
                mret (match a with FStr x => x | FInt z => str_int z end +:+ s)
              else if Ascii.eqb d "d"%char then
                match a with
                | FInt z => s ← py_format rest args'; mret (str_int z +:+ s)
                | FStr _ => Raises TypeError
                end
              else Raises ValueError
          end
      else s ← py_format tail args; mret (String c s)
  end.

(** [score_recieved] in [FuncTestResult.__str__] *)
Definition score_recieved (self : FuncTestResult) : Z :=
  if exc self then 0 else calc_score self.

(** [body] in [FuncTestResult.__str__] *)
Definition body (self : FuncTestResult) : string :=
  if exc self then LOAD_TIME_ERR_STR
  else str_int (Z.of_nat (length (arg_sets_res self))) +:+ " cases were tested" +:+ nl.

(** [header] in [FuncTestResult.__str__] *)
Definition header (self : FuncTestResult) : outcome string :=
  py_format FUNC_TEST_HEADER
    [FStr (function_name self); FInt (score_recieved self); FInt (score self)].

Section Report.
(** [ArgSetTestResult.__str__] draws its grid with [tabulate], which is
    not part of the source. *)
Variable ArgSetTestResult_str : ArgSetTestResult → string.

Fixpoint join (sep : string) (parts : list string) : string :=
  match parts with
  | [] => ""
  | [p] => p
  | p :: rest => p +:+ sep +:+ join sep rest
  end.

Definition FuncTestResult_str (self : FuncTestResult) : outcome string :=
  h ← header self;
  let res_str :=
    imap (λ i r, "case " +:+ str_int (Z.of_nat i) +:+ nl +:+ ArgSetTestResult_str r)
         (arg_sets_res self) in
  mret (h +:+ body self +:+ join (nl +:+ nl) res_str).
End Report.

(** ** Rendering one argument set *)

(** The double quote, as a string. *)
Definition dquote : string := String (Ascii.ascii_of_nat 34) EmptyString.

(** [s[1:-1]]: without the first and the last character. *)
Definition strip_ends (s : string) : string :=
  String.substring 1 (String.length s - 2)%nat s.

(** [type(v) == str] *)
Definition is_str (v : pyval) : bool :=
  match v with
  | VStr _ => true
  | _ => false
  end.

(** [str(type(v))] *)
Definition type_str (v : pyval) : string :=
  match v with
  | VNone => "<class 'NoneType'>"
  | VBool _ => "<class 'bool'>"
  | VInt _ => "<class 'int'>"
  | VStr _ => "<class 'str'>"
  | VList _ => "<class 'list'>"
  end.

Section Rendering.
(** [repr] of a string, with its quoting and escapes, and [tabulate] with
    [tablefmt='grid'] are not part of the source. *)
Variable repr_str : string → string.
Variable tabulate : list (list string) → string.

(** [repr(v)]: a list shows the [repr] of its elements. *)
Fixpoint py_repr (v : pyval) : string :=
  match v with
  | VNone => "None"
  | VBool b => if b then "True" else "False"
  | VInt z => str_int z
  | VStr s => repr_str s
  | VList l => "[" +:+ join ", " (map py_repr l) +:+ "]"
  end.

(** [str(v)]: a string is itself. *)
Definition py_str (v : pyval) : string :=
  match v with
  | VStr s => s
  | _ => py_repr v
  end.

(** [expected_val] and [actual_val] in [ArgSetTestResult.__str__]: a
    string is put between double quotes. *)
Definition value_cell (v : pyval) : string :=
  if is_str v then dquote +:+ py_str v +:+ dquote else py_str v.

(** [grid] in [ArgSetTestResult.__str__] *)
Definition grid (self : ArgSetTestResult) : list (list string) :=
  let res := if negb (is_correct self) then "FAILED" else "PASSED" in
  [[res; "value returned"; "type returned"];
   ["expected"; value_cell (expected self); type_str (expected self)];
   ["actual"; value_cell (actual self); type_str (actual self)]].

(** [in_str] in [ArgSetTestResult.__str__] *)
Definition in_str (self : ArgSetTestResult) : string :=
  "inputs: (" +:+ strip_ends (py_str (VList (inputs self))) +:+ ")" +:+ nl.

(** [ArgSetTestResult.__str__] *)
Definition ArgSetTestResult_str (self : ArgSetTestResult) : string :=
  let return_str := in_str self +:+ tabulate (grid self) +:+ nl in
  match exception_str self with
  | Some e => return_str +:+ e
  | None => return_str
  end.
End Rendering.

(** ** Reference data

    The scenario of the specification: [add(a, b)] with argument sets
    [[1, 2], [3, 4]] worth 10 points, and the callables used to exercise
    the definitions. *)

Definition from_fn (f : list pyval → outcome pyval) : callable :=
  {| fn := f; bound := [] |}.

Definition add_args : list (list pyval) :=
  [[VInt 1; VInt 2]; [VInt 3; VInt 4]].

Definition add_func : Func.t :=
  {| Func.name := "add"; Func.arg_sets := add_args; Func.score := 10;
     Func.testResults := [] |}.

(** [def add(a, b): return a + b] *)
Definition add_sol : callable :=
  from_fn (λ args,
    match args with
    | [VInt a; VInt b] => Returns (VInt (a + b))
    | _ => Raises TypeError
    end).

(** A wrong [add]: one too many whenever [a] is 3. *)
Definition add_wrong : callable :=
  from_fn (λ args,
    match args with
    | [VInt a; VInt b] => Returns (VInt (if Z.eqb a 3 then a + b + 1 else a + b))
    | _ => Raises TypeError
    end).

(** A procedure: it returns [None] whatever its arguments. *)
Definition returns_None : callable := from_fn (λ _, Returns VNone).

(** A function that raises [ValueError]. *)
Definition raises_ValueError : callable := from_fn (λ _, Raises ValueError).

(** A function the timer interrupts. *)
Definition loops_forever : callable := from_fn (λ _, Raises TimeoutException).

(** A function that calls [sys.exit()]. *)
Definition calls_exit : callable :=
  from_fn (λ _, Raises (BaseExceptionSub "SystemExit")).

Definition module_of (attrs : list (string * callable)) : module :=
  λ name, snd <$> List.find (λ p, String.eqb (fst p) name) attrs.

(** The modules of the scenario: the solution, a correct submission, a
    wrong one, one without [add], one that calls [sys.exit()] when loaded,
    and one that cannot be found. *)
Definition imp_scenario : importer := λ name,
  if String.eqb name "solution" then Returns (module_of [("add", add_sol); ("show", returns_None)])
  else if String.eqb name "alice" then Returns (module_of [("add", add_sol); ("show", returns_None)])
  else if String.eqb name "bob" then Returns (module_of [("add", add_wrong); ("show", raises_ValueError)])
  else if String.eqb name "carol" then Returns (module_of [("show", loops_forever)])
  else if String.eqb name "dave" then Raises (BaseExceptionSub "SystemExit")
  else Raises (ExceptionSub "ModuleNotFoundError").

Definition student (name : string) : StudentFile :=
  {| file_xext := name; function_test_results := [] |}.

(** A procedure graded on one argument set, and a function graded on
    none. *)
Definition show_func : Func.t :=
  {| Func.name := "show"; Func.arg_sets := [[VInt 1]]; Func.score := 5;
     Func.testResults := [] |}.

Definition untested_func : Func.t :=
  {| Func.name := "add"; Func.arg_sets := []; Func.score := 10;
     Func.testResults := [] |}.

(** ** Predicates used in the statements *)

(** The three outcomes the triple of [run_with_timeout] can stand for. *)
Definition normal_return (t : bool * pyval * option string) : Prop :=
  t.1.1 = false ∧ t.2 = None.
Definition timed_out (t : bool * pyval * option string) : Prop :=
  t.1.1 = true.
Definition errored (t : bool * pyval * option string) : Prop :=
  t.2 = Some RUN_TIME_ERR_STR.

Definition exactly_one (P Q R : Prop) : Prop :=
  (P ∧ ¬ Q ∧ ¬ R) ∨ (¬ P ∧ Q ∧ ¬ R) ∨ (¬ P ∧ ¬ Q ∧ R).

(** [r] is the result recorded for [func]. *)
Definition result_of (func : Func.t) (r : FuncTestResult) : Prop :=
  function_name r = Func.name func ∧ score r = Func.score func.

(** [stf'] is [stf] with one result per function of [funcs] appended, in
    the order of [funcs]. *)
Definition graded (funcs : list Func.t) (stf stf' : StudentFile) : Prop :=
  file_xext stf' = file_xext stf
  ∧ ∃ rs : list FuncTestResult,
      function_test_results stf' = function_test_results stf ++ rs
          ∧ Forall2 result_of funcs rs.

(** [r] is the result [test_func] records for [func] and the submission
    [name]: the solution's function has resolved; if resolving the
    student's raised within [Exception], [r] is flagged and holds no
    result; if it resolved, [r] is not flagged and holds, in order, the
    result of evaluating each argument set. *)
Definition recorded_for (imp : importer) (sol_fname name : string)
    (func : Func.t) (r : FuncTestResult) : Prop :=
  function_name r = Func.name func
  ∧ score r = Func.score func
  ∧ ∃ sol_func, resolve imp sol_fname (Func.name func) = Returns sol_func
      ∧ match resolve imp name (Func.name func) with
        | Raises e => is_Exception e = true ∧ exc r = true ∧ arg_sets_res r = []
        | Returns sft_func =>
            exc r = false
            ∧ Forall2
                (λ arg_set set_result,
                   test_one_arg_set arg_set sft_func sol_func = Returns set_result)
                (Func.arg_sets func) (arg_sets_res r)
        end.

(** [stf'] is [stf] with, appended in the order of [funcs], the result
    recorded for each function. *)
Definition graded_in_full (imp : importer) (sol_fname : string)
    (funcs : list Func.t) (stf stf' : StudentFile) : Prop :=
  file_xext stf' = file_xext stf
  ∧ ∃ rs : list FuncTestResult,
      function_test_results stf' = function_test_results stf ++ rs
      ∧ Forall2 (recorded_for imp sol_fname (file_xext stf)) funcs rs.

(** Nothing propagates from grading [func] for the submission [name]: the
    solution's function resolves, resolving the student's returns or
    raises within [Exception], and every evaluation returns a result,
    correct or not. *)
Definition evaluates (imp : importer) (sol_fname name : string)
    (func : Func.t) : Prop :=
  ∃ sol_func, resolve imp sol_fname (Func.name func) = Returns sol_func
    ∧ match resolve imp name (Func.name func) with
      | Raises e => is_Exception e = true
      | Returns sft_func =>
          Forall (λ arg_set,
                    ∃ set_result,
                      test_one_arg_set arg_set sft_func sol_func = Returns set_result)
                 (Func.arg_sets func)
      end.

(** ** Further data and measures *)

(** An [add] that calls [sys.exit()] whenever [a] is 3. *)
Definition add_exits_on_three : callable :=
  from_fn (λ args,
    match args with
    | [VInt a; VInt b] =>
        if Z.eqb a 3 then Raises (BaseExceptionSub "SystemExit")
        else Returns (VInt (a + b))
    | _ => Raises TypeError
    end).

(** The scenario with one more submission, erin's. *)
Definition imp_with_erin : importer := λ name,
  if String.eqb name "erin" then Returns (module_of [("add", add_exits_on_three)])
  else imp_scenario name.

(** The points a student has received, and the points a list of functions
    is worth. *)
Definition total_received (stf : StudentFile) : Z :=
  foldr (λ r acc, calc_score r + acc) 0 (function_test_results stf).

Definition total_possible (funcs : list Func.t) : Z :=
  foldr (λ func acc, Func.score func + acc) 0 funcs.

(* ================================================================= *)
(** * The store: mutable list objects

    Lists are objects: an argument set is a list object whose elements are
    atoms or references to further list objects, a callable may change the
    objects it is handed, and [copy.deepcopy] allocates new ones.  This
    module embeds the part of [test_one_arg_set] that touches the store:
    the binding loop and the two calls. *)

Module Store.

Abbreviation loc := nat.

(** The immutable values. *)
Inductive atom : Type :=
  | ANone
  | ABool (b : bool)
  | AInt (z : Z)
  | AStr (s : string).

(** A value is an atom or a reference to a list object. *)
Inductive val : Type :=
  | Atom (a : atom)
  | Ref (l : loc).

(** The store: the list objects allocated so far, addressed by position;
    a new object goes at the end. *)
Abbreviation heap := (list (list val)).

(** The [memo] dictionary of [deepcopy]: the copy made of each object
    met so far. *)
Abbreviation memo_t := (gmap nat nat).

(** [for a in x: append(deepcopy(a, memo))], the loop of [_deepcopy_list]
    that fills the new list [y]; [rec] is [deepcopy]. *)
Fixpoint copy_elems
    (rec : val → memo_t → heap → option (val * memo_t * heap))
    (y : loc) (elems : list val) (memo : memo_t) (h : heap)
  : option (memo_t * heap) :=
  match elems with
  | [] => Some (memo, h)
  | a :: rest =>
      match rec a memo h with
      | Some (a', memo, h) =>
          copy_elems rec y rest memo (alter (λ o, o ++ [a']) y h)
      | None => None
      end
  end.

(** [deepcopy(x, memo)].  An atom is its own copy.  A list met before is
    copied as the copy in [memo]; otherwise a new empty list [y] is
    allocated, recorded in [memo], and filled with the copies of the
    elements.  [fuel] bounds the depth of the recursion. *)
Fixpoint deepcopy_go (fuel : nat) (x : val) (memo : memo_t) (h : heap)
  : option (val * memo_t * heap) :=
  match fuel with
  | O => None
  | S fuel =>
      match x with
      | Atom _ => Some (x, memo, h)
      | Ref l =>
          match memo !! l with
          | Some y => Some (Ref y, memo, h)
          | None =>
              match h !! l with
              | None => None
              | Some elems =>
                  let y := length h in
                  match copy_elems (deepcopy_go fuel) y elems
                                   (<[l:=y]> memo) (h ++ [[]]) with
                  | Some (memo, h) => Some (Ref y, memo, h)
                  | None => None
                  end
              end
          end
      end
  end.

(** [deepcopy(x)]: a fresh [memo]; the recursion never goes deeper than
    the number of objects in the store. *)
Definition deepcopy (x : val) (h : heap) : option (val * heap) :=
  match deepcopy_go (S (length h)) x ∅ h with
  | Some (x', _, h') => Some (x', h')
  | None => None
  end.

(** A callable may read and change the store. *)
Record callable : Type := mk_callable {
  fn : list val → heap → heap * outcome val;
  bound : list val
}.

Definition partial (f : callable) (a : val) : callable :=
  {| fn := fn f; bound := bound f ++ [a] |}.

Definition call (f : callable) (h : heap) : heap * outcome val :=
  fn f (bound f) h.

(** The binding loop of [test_one_arg_set] over the elements of the
    argument set: the copy for the student's function is made first. *)
Fixpoint bind_args (args : list val) (stf_func sol_func : callable) (h : heap)
  : option (callable * callable * heap) :=
  match args with
  | [] => Some (stf_func, sol_func, h)
  | arg :: rest =>
      match deepcopy arg h with
      | None => None
      | Some (c, h) =>
          match deepcopy arg h with
          | None => None
          | Some (d, h) =>
              bind_args rest (partial stf_func c) (partial sol_func d) h
          end
      end
  end.

(** [for arg in arg_set: ...], where [arg_set] is a list object. *)
Definition bind_arg_set (arg_set : loc) (stf_func sol_func : callable) (h : heap)
  : option (callable * callable * heap) :=
  match h !! arg_set with
  | None => None
  | Some args => bind_args args stf_func sol_func h
  end.

Definition run_with_timeout (func : callable) (h : heap)
  : heap * outcome (bool * val * option string) :=
  match call func h with
  | (h, Returns v) => (h, Returns (false, v, None))
  | (h, Raises e) =>
      if is_TimeoutException e then (h, Returns (true, Atom ANone, None))
      else if is_Exception e then
        (h, Returns (false, Atom ANone, Some RUN_TIME_ERR_STR))
      else (h, Raises e)
  end.

(** What [test_one_arg_set] hands to [ArgSetTestResult]. *)
Record result_args : Type := mk_result_args {
  inputs : val;
  expected : val;
  actual : val;
  exception_str : option string
}.

(** [test_one_arg_set] up to the construction of the result: the binding
    loop, the student's call under the timeout, the solution's call, and
    the choice of [actual] and [exception_str].  [None] stands for a store
    with a dangling reference, which Python cannot build. *)
Definition test_one_arg_set (arg_set : loc) (stf_func sol_func : callable)
    (h : heap) : option (heap * outcome result_args) :=
  match bind_arg_set arg_set stf_func sol_func h with
  | None => None
  | Some (stf_func, sol_func, h) =>
      match run_with_timeout stf_func h with
      | (h, Raises e) => Some (h, Raises e)
      | (h, Returns (is_timeout, return_val, exc_str)) =>
          match call sol_func h with
          | (h, Raises e) => Some (h, Raises e)
          | (h, Returns answer_key) =>
              let arg_set_partial := mk_result_args (Ref arg_set) answer_key in
              if (is_timeout : bool) then
                Some (h, Returns (arg_set_partial (Atom ANone) (Some INFINITE_LOOP_STR)))
              else if truthy exc_str then
                Some (h, Returns (arg_set_partial (Atom ANone) exc_str))
              else Some (h, Returns (arg_set_partial return_val None))
          end
      end
  end.

(** ** Reading the store *)

(** No dangling reference. *)
Definition val_ok (h : heap) (v : val) : Prop :=
  match v with
  | Atom _ => True
  | Ref l => (l < length h)%nat
  end.

Definition wf (h : heap) : Prop :=
  ∀ l o v, h !! l = Some o → v ∈ o → val_ok h v.

(** The objects a value leads to. *)
Inductive reach (h : heap) : val → loc → Prop :=
  | reach_here (l : loc) : reach h (Ref l) l
  | reach_step (l : loc) (o : list val) (v : val) (l' : loc) :
      h !! l = Some o → v ∈ o → reach h v l' → reach h (Ref l) l'.

(** The objects a call with arguments [args] is handed. *)
Definition footprint (h : heap) (args : list val) (l : loc) : Prop :=
  ∃ v, v ∈ args ∧ reach h v l.

Definition atom_val (a : atom) : pyval :=
  match a with
  | ANone => VNone
  | ABool b => VBool b
  | AInt z => VInt z
  | AStr s => VStr s
  end.

(** The value a reference stands for, read to nesting depth [depth]. *)
Fixpoint snapshot (depth : nat) (h : heap) (v : val) : option pyval :=
  match v with
  | Atom a => Some (atom_val a)
  | Ref l =>
      match depth with
      | O => None
      | S d => elems ← h !! l; VList <$> mapM (snapshot d h) elems
      end
  end.

(** A function that works on its arguments only: it changes no object
    outside what its arguments lead to, what it stores or returns is what
    its arguments lead to or what it has allocated, and it builds no
    dangling reference. *)
Definition confined (f : list val → heap → heap * outcome val) : Prop :=
  ∀ args h,
    let h' := (f args h).1 in
    let own l := footprint h args l ∨ (length h ≤ l)%nat in
    (length h ≤ length h')%nat
    ∧ (∀ l, (l < length h)%nat → ¬ footprint h args l → h' !! l = h !! l)
    ∧ (∀ l o r, own l → h' !! l = Some o → Ref r ∈ o → own r)
    ∧ (∀ r, (f args h).2 = Returns (Ref r) → own r)
    ∧ (wf h → Forall (val_ok h) args →
       wf h' ∧ ∀ v, (f args h).2 = Returns v → val_ok h' v).

(** A set of objects that refers to its own members only. *)
Definition closed_in (h : heap) (S : loc → Prop) : Prop :=
  ∀ l o r, S l → h !! l = Some o → Ref r ∈ o → S r.

Definition in_region (S : loc → Prop) (v : val) : Prop :=
  ∀ r, v = Ref r → S r.

(** The arguments bound for the student's function live in [SA], those
    bound for the solution's in [SB]: two disjoint closed sets of objects
    allocated after the first [n]. *)
Definition separated (n : nat) (h : heap) (stf_func sol_func : callable)
    (SA SB : loc → Prop) : Prop :=
  (n ≤ length h)%nat
  ∧ (∀ l, SA l → (n ≤ l < length h)%nat)
  ∧ (∀ l, SB l → (n ≤ l < length h)%nat)
  ∧ (∀ l, SA l → ¬ SB l)
  ∧ closed_in h SA
  ∧ closed_in h SB
  ∧ Forall (in_region SA) (bound stf_func)
  ∧ Forall (in_region SB) (bound sol_func).

(** While the store of size [n] is being copied: the copies recorded in
    [memo] and every reference held by an object allocated since lie in
    the new part of the store. *)
Definition fresh_inv (n : nat) (memo : gmap nat nat) (h : list (list val)) : Prop :=
  (n ≤ length h)%nat
  ∧ (∀ l y, memo !! l = Some y → (n ≤ y < length h)%nat)
  ∧ (∀ l o r, (n ≤ l)%nat → h !! l = Some o → Ref r ∈ o → (n ≤ r < length h)%nat).

(** What a run of [deepcopy_go], respectively of its loop filling [y],
    keeps and allocates. *)
Definition copy_frame (n : nat) (h : heap) (x' : val) (memo' : memo_t)
    (h' : heap) : Prop :=
  fresh_inv n memo' h'
  ∧ (length h ≤ length h')%nat
  ∧ (∀ l, (l < length h)%nat → h' !! l = h !! l)
  ∧ (∀ y, x' = Ref y → (n ≤ y < length h')%nat).

Definition loop_frame (n : nat) (y : loc) (h : heap) (memo' : memo_t)
    (h' : heap) : Prop :=
  fresh_inv n memo' h'
  ∧ (length h ≤ length h')%nat
  ∧ (∀ l, (l < length h)%nat → l ≠ y → h' !! l = h !! l).

(** [v'] is [v] with every reference replaced by its copy. *)
Definition renamed (memo : memo_t) (v v' : val) : Prop :=
  match v with
  | Atom a => v' = Atom a
  | Ref l => ∃ y, memo !! l = Some y ∧ v' = Ref y
  end.

(** Object [y] is the finished copy of object [l]. *)
Definition copied (memo : memo_t) (h : heap) (l y : loc) : Prop :=
  ∃ elems elems',
    h !! l = Some elems ∧ h !! y = Some elems' ∧ Forall2 (renamed memo) elems elems'.

Definition keys_old (n : nat) (memo : memo_t) : Prop :=
  ∀ l y, memo !! l = Some y → (l < n)%nat.

(** What a run of [deepcopy_go], respectively of its loop, has copied. *)
Definition copy_faithful (n : nat) (x : val) (memo : memo_t) (h : heap)
    (x' : val) (memo' : memo_t) (h' : heap) : Prop :=
  memo ⊆ memo'
  ∧ keys_old n memo'
  ∧ renamed memo' x x'
  ∧ (∀ l y, memo' !! l = Some y → memo !! l = None →
       (length h ≤ y)%nat ∧ copied memo' h' l y).

Definition loop_faithful (n : nat) (y : loc) (elems : list val) (memo : memo_t)
    (h : heap) (memo' : memo_t) (h' : heap) : Prop :=
  memo ⊆ memo'
  ∧ keys_old n memo'
  ∧ (∀ l y', memo' !! l = Some y' → memo !! l = None →
       (length h ≤ y')%nat ∧ copied memo' h' l y')
  ∧ (∃ elems', Forall2 (renamed memo') elems elems'
               ∧ ∀ o, h !! y = Some o → h' !! y = Some (o ++ elems')).

(** ** Reference data *)

(** [def f(xs): xs.append(0); return xs]: it changes its argument in
    place and returns it. *)
Definition appends_zero : callable :=
  {| fn := λ args h,
       match args with
       | [Ref l] => (alter (λ o, o ++ [Atom (AInt 0)]) l h, Returns (Ref l))
       | _ => (h, Raises TypeError)
       end;
     bound := [] |}.

(** [def f(xs): return len(xs)], which changes nothing. *)
Definition returns_len : callable :=
  {| fn := λ args h,
       match args with
       | [Ref l] =>
           match h !! l with
           | Some o => (h, Returns (Atom (AInt (Z.of_nat (length o)))))
           | None => (h, Raises TypeError)
           end
       | _ => (h, Raises TypeError)
       end;
     bound := [] |}.

(** The store holding the argument set [[[1, 2]]]: object 0 is [1, 2] and
    object 1, the argument set, is the list of object 0. *)
Definition heap_12 : heap :=
  [[Atom (AInt 1); Atom (AInt 2)]; [Ref 0%nat]].

End Store.



(* ================================================================= *)
(** * Theorems *)

(** ** Values *)

Lemma pyval_nested_ind (P : pyval → Prop) :
  P VNone → (∀ b, P (VBool b)) → (∀ z, P (VInt z)) → (∀ s, P (VStr s)) →
  (∀ l, Forall P l → P (VList l)) → ∀ v, P v.
Proof.
  intros HN HB HI HS HL.
  refine (fix IH (v : pyval) : P v :=
            match v with
            | VNone => HN
            | VBool b => HB b
            | VInt z => HI z
            | VStr s => HS s
            | VList l =>
                HL l ((fix all (l : list pyval) : Forall P l :=
                         match l with
                         | [] => Forall_nil_2 P
                         | x :: l' => Forall_cons_2 P x l' (IH x) (all l')
                         end) l)
            end).
Qed.

Lemma deepcopy_id (v : pyval) : deepcopy v = v.
Proof.
  induction v as [ | | | | l IH] using pyval_nested_ind; simpl; auto.
  f_equal. induction IH as [ | x l Hx _ IHl]; simpl; congruence.
Qed.

Lemma bind_arg_set_spec (arg_set : list pyval) (stf_func sol_func : callable) :
  bind_arg_set arg_set stf_func sol_func =
    ({| fn := fn stf_func; bound := bound stf_func ++ arg_set |},
     {| fn := fn sol_func; bound := bound sol_func ++ arg_set |}).
Proof.
  unfold bind_arg_set.
  revert stf_func sol_func.
  induction arg_set as [ | arg rest IH]; intros [f bf] [g bg]; simpl.
  - by rewrite !app_nil_r.
  - rewrite IH. simpl. rewrite deepcopy_id, <- !app_assoc. done.
Qed.

Lemma py_eq_None_r (v : pyval) : py_eq v VNone = true ↔ v = VNone.
Proof. destruct v; simpl; split; congruence. Qed.

(** ** Scoring *)

Lemma calc_score_loop_spec (results : list ArgSetTestResult) (full : Z) :
  calc_score_loop results full = if forallb is_correct results then full else 0.
Proof.
  induction results as [ | r rest IH]; simpl; [done | ].
  destruct (is_correct r); simpl; auto.
Qed.

(** C1: [calc_score] is all-or-nothing.  It returns 0 when the load-failed
    flag is set or some contained result is incorrect, the configured score
    otherwise, and so never a value strictly between 0 and that score. *)
Theorem calc_score_all_or_nothing (r : FuncTestResult) :
  calc_score r =
    (if exc r || negb (forallb is_correct (arg_sets_res r)) then 0 else score r)
  ∧ (calc_score r = 0 ∨ calc_score r = score r)
  ∧ ¬ (0 < calc_score r < score r).
Proof.
  unfold calc_score. rewrite calc_score_loop_spec.
  destruct (exc r), (forallb is_correct (arg_sets_res r)); simpl;
    repeat split; auto; lia.
Qed.

(** ** The timeout executor *)

Lemma run_with_timeout_eq (func : callable) :
  run_with_timeout func =
    match call func with
    | Returns v => Returns (false, v, None)
    | Raises e =>
        if is_TimeoutException e then Returns (true, VNone, None)
        else if is_Exception e then Returns (false, VNone, Some RUN_TIME_ERR_STR)
        else Raises e
    end.
Proof. reflexivity. Qed.

(** C5, as stated, fails: a callable that calls [sys.exit()] raises
    [SystemExit], which [except Exception] does not catch, and the
    exception escapes [run_with_timeout]. *)
Lemma run_with_timeout_lets_SystemExit_escape :
  call calls_exit = Raises (BaseExceptionSub "SystemExit")
  ∧ is_TimeoutException (BaseExceptionSub "SystemExit") = false
  ∧ run_with_timeout calls_exit = Raises (BaseExceptionSub "SystemExit").
Proof. repeat split. Qed.

(** C5, amended: whenever the callable returns or raises an exception
    derived from [Exception] (the timeout signal included),
    [run_with_timeout] returns a triple in which exactly one of normal
    return, timeout and error holds, and no exception escapes. *)
Theorem run_with_timeout_exactly_one (func : callable) :
  (∀ e, call func = Raises e → is_Exception e = true) →
  ∃ t, run_with_timeout func = Returns t
       ∧ exactly_one (normal_return t) (timed_out t) (errored t).
Proof.
  intros Hexc. rewrite run_with_timeout_eq.
  destruct (call func) as [v | e] eqn:Hcall.
  - eexists; split; [done | ].
    left. unfold normal_return, timed_out, errored; simpl. by repeat split.
  - rewrite (Hexc e eq_refl).
    destruct (is_TimeoutException e); eexists; (split; [done | ]).
    + right; left. unfold normal_return, timed_out, errored; simpl.
      repeat split; [by intros [? _] | done].
    + right; right. unfold normal_return, timed_out, errored; simpl.
      repeat split; [by intros [_ ?] | done].
Qed.

Lemma run_with_timeout_exactly_one_witness :
  (∀ e, call raises_ValueError = Raises e → is_Exception e = true)
  ∧ ∃ t, run_with_timeout raises_ValueError = Returns t
         ∧ exactly_one (normal_return t) (timed_out t) (errored t).
Proof.
  assert (H : ∀ e, call raises_ValueError = Raises e → is_Exception e = true).
  { intros e He. vm_compute in He. by inversion He. }
  split; [exact H | exact (run_with_timeout_exactly_one raises_ValueError H)].
Defined.

(** Only an exception outside the [Exception] hierarchy escapes. *)
Lemma run_with_timeout_raises (func : callable) (e : py_exc) :
  run_with_timeout func = Raises e ↔ call func = Raises e ∧ is_Exception e = false.
Proof.
  rewrite run_with_timeout_eq.
  destruct (call func) as [v | e'] eqn:Hcall.
  - split; [done | by intros [? _]].
  - destruct e'; simpl.
    + split; [done | intros [[= <-] ?]; done].
    + split; [done | intros [[= <-] ?]; done].
    + split; [intros [= <-]; done | intros [[= <-] _]; done].
Qed.

(** ** The argument-set evaluator *)

Lemma test_one_arg_set_eq (arg_set : list pyval) (stf_func sol_func : callable) :
  test_one_arg_set arg_set stf_func sol_func =
    let answer := fn sol_func (bound sol_func ++ arg_set) in
    match fn stf_func (bound stf_func ++ arg_set) with
    | Returns v =>
        answer_key ← answer;
        mret (ArgSetTestResult_init arg_set answer_key v None)
    | Raises e =>
        if is_TimeoutException e then
          answer_key ← answer;
          mret (ArgSetTestResult_init arg_set answer_key VNone (Some INFINITE_LOOP_STR))
        else if is_Exception e then
          answer_key ← answer;
          mret (ArgSetTestResult_init arg_set answer_key VNone (Some RUN_TIME_ERR_STR))
        else Raises e
    end.
Proof.
  unfold test_one_arg_set. rewrite bind_arg_set_spec, run_with_timeout_eq.
  unfold call; simpl.
  set (answer := fn sol_func (bound sol_func ++ arg_set)).
  destruct (fn stf_func (bound stf_func ++ arg_set)) as [v | e]; simpl.
  - by destruct answer.
  - destruct (is_TimeoutException e); simpl; [by destruct answer | ].
    destruct (is_Exception e); simpl; [ | done]. by destruct answer.
Qed.

(** C4: the fields of the result of an evaluated argument set.  [expected]
    is the value the solution returns on the argument set; [actual] and
    [exception_str] follow the student's call: [None] and the infinite-loop
    message after a timeout, [None] and the runtime-error message after any
    other exception, the returned value and no message otherwise. *)
Theorem test_one_arg_set_fields (arg_set : list pyval)
    (stf_func sol_func : callable) (r : ArgSetTestResult) :
  test_one_arg_set arg_set stf_func sol_func = Returns r →
  fn sol_func (bound sol_func ++ arg_set) = Returns (expected r)
  ∧ match fn stf_func (bound stf_func ++ arg_set) with
    | Raises e =>
        if is_TimeoutException e
        then actual r = VNone ∧ exception_str r = Some INFINITE_LOOP_STR
        else actual r = VNone ∧ exception_str r = Some RUN_TIME_ERR_STR
    | Returns v => actual r = v ∧ exception_str r = None
    end.
Proof.
  rewrite test_one_arg_set_eq. simpl.
  destruct (fn stf_func _) as [v | e].
  - destruct (fn sol_func _) as [k | e']; simpl; [ | done].
    intros [= <-]. done.
  - destruct (is_TimeoutException e).
    + destruct (fn sol_func _) as [k | e']; simpl; [ | done].
      intros [= <-]. done.
    + destruct (is_Exception e); [ | done].
      destruct (fn sol_func _) as [k | e']; simpl; [ | done].
      intros [= <-]. done.
Qed.

Lemma test_one_arg_set_fields_witness :
  test_one_arg_set [VInt 3; VInt 4] loops_forever add_sol
    = Returns (ArgSetTestResult_init [VInt 3; VInt 4] (VInt 7) VNone (Some INFINITE_LOOP_STR))
  ∧ fn add_sol (bound add_sol ++ [VInt 3; VInt 4]) = Returns (VInt 7)
  ∧ match fn loops_forever (bound loops_forever ++ [VInt 3; VInt 4]) with
    | Raises e =>
        if is_TimeoutException e
        then VNone = VNone ∧ Some INFINITE_LOOP_STR = Some INFINITE_LOOP_STR
        else VNone = VNone ∧ Some INFINITE_LOOP_STR = Some RUN_TIME_ERR_STR
    | Returns v => VNone = v ∧ Some INFINITE_LOOP_STR = None
    end.
Proof.
  split; [reflexivity | ].
  exact (test_one_arg_set_fields [VInt 3; VInt 4] loops_forever add_sol _ eq_refl).
Defined.

(** An evaluation produces a result whenever the solution returns and the
    student's call returns, times out or raises within [Exception]. *)
Lemma test_one_arg_set_returns (arg_set : list pyval) (stf_func sol_func : callable) :
  (∀ e, fn stf_func (bound stf_func ++ arg_set) = Raises e → is_Exception e = true) →
  (∃ k, fn sol_func (bound sol_func ++ arg_set) = Returns k) →
  ∃ r, test_one_arg_set arg_set stf_func sol_func = Returns r.
Proof.
  intros Hexc [k Hk]. rewrite test_one_arg_set_eq, Hk. simpl.
  destruct (fn stf_func _) as [v | e]; [by eexists | ].
  rewrite (Hexc e eq_refl). destruct (is_TimeoutException e); by eexists.
Qed.

(** A failed call is marked incorrect whenever the solution returns
    anything but [None]. *)
Lemma failed_call_incorrect (arg_set : list pyval)
    (stf_func sol_func : callable) (r : ArgSetTestResult) (e : py_exc) :
  test_one_arg_set arg_set stf_func sol_func = Returns r →
  fn stf_func (bound stf_func ++ arg_set) = Raises e →
  expected r ≠ VNone →
  is_correct r = false.
Proof.
  rewrite test_one_arg_set_eq. simpl. intros Hr He Hk. rewrite He in Hr.
  assert (is_correct r = py_eq (expected r) VNone) as ->.
  { destruct (is_TimeoutException e); [ | destruct (is_Exception e); [ | done]];
      destruct (fn sol_func _); simpl in Hr; by inversion Hr. }
  apply not_true_is_false. by rewrite py_eq_None_r.
Qed.

(** C2 fails on the code when the solution returns [None]: the failed call
    is recorded with [actual = None], and [is_correct] is [expected ==
    actual].  A student's procedure that raises, or never returns, is
    marked correct and earns the full score. *)
Theorem failed_call_marked_correct_when_solution_returns_None :
  test_one_arg_set [VInt 1] raises_ValueError returns_None
    = Returns {| inputs := [VInt 1]; expected := VNone; actual := VNone;
                 exception_str := Some RUN_TIME_ERR_STR; is_correct := true |}
  ∧ test_one_arg_set [VInt 1] loops_forever returns_None
    = Returns {| inputs := [VInt 1]; expected := VNone; actual := VNone;
                 exception_str := Some INFINITE_LOOP_STR; is_correct := true |}
  ∧ calc_score <$> function_test_results
      (test_func imp_scenario show_func (student "bob") "solution").1 = [5]
  ∧ calc_score <$> function_test_results
      (test_func imp_scenario show_func (student "carol") "solution").1 = [5].
Proof. repeat split. Qed.

(** ** The function evaluator *)

Lemma alter_last {A : Type} (f : A → A) (l : list A) (x : A) :
  alter f (length l) (l ++ [x]) = l ++ [f x].
Proof.
  replace (length l) with (length l + 0)%nat by lia.
  by rewrite alter_app_r.
Qed.

Lemma add_set_result_at_last (name : string) (old : list FuncTestResult)
    (fr : FuncTestResult) (r : ArgSetTestResult) :
  add_set_result_at (length old) r
    {| file_xext := name; function_test_results := old ++ [fr] |}
  = {| file_xext := name; function_test_results := old ++ [add_set_result fr r] |}.
Proof. unfold add_set_result_at; simpl. by rewrite alter_last. Qed.

(** The loop of [test_func] when every evaluation returns: the results are
    appended, in order, to the object recorded last. *)
Lemma test_func_loop_all (sft_func sol_func : callable) (name : string)
    (old : list FuncTestResult) (arg_sets : list (list pyval))
    (results : list ArgSetTestResult) :
  Forall2 (λ arg_set r, test_one_arg_set arg_set sft_func sol_func = Returns r)
          arg_sets results →
  ∀ fr : FuncTestResult,
  for_each
    (λ arg_set stf,
       match test_one_arg_set arg_set sft_func sol_func with
       | Returns set_result =>
           (add_set_result_at (length old) set_result stf, Returns tt)
       | Raises e => (stf, Raises e)
       end)
    arg_sets {| file_xext := name; function_test_results := old ++ [fr] |}
  = ({| file_xext := name;
        function_test_results :=
          old ++ [{| function_name := function_name fr; score := score fr;
                     arg_sets_res := arg_sets_res fr ++ results;
                     exc := exc fr |}] |},
     Returns tt).
Proof.
  induction 1 as [ | arg_set r arg_sets results Hr _ IH]; intros fr; simpl.
  - rewrite app_nil_r. by destruct fr.
  - rewrite Hr, add_set_result_at_last, IH. simpl. by rewrite <- app_assoc.
Qed.

(** Whatever the evaluations do, the loop keeps the recorded object last
    in the list, with its name, score and flag. *)
Lemma test_func_loop_shape (sft_func sol_func : callable) (name : string)
    (old : list FuncTestResult) (arg_sets : list (list pyval))
    (fr : FuncTestResult) :
  ∃ fr', (for_each
            (λ arg_set stf,
               match test_one_arg_set arg_set sft_func sol_func with
               | Returns set_result =>
                   (add_set_result_at (length old) set_result stf, Returns tt)
               | Raises e => (stf, Raises e)
               end)
            arg_sets {| file_xext := name; function_test_results := old ++ [fr] |}).1
         = {| file_xext := name; function_test_results := old ++ [fr'] |}
         ∧ function_name fr' = function_name fr
         ∧ score fr' = score fr
         ∧ exc fr' = exc fr.
Proof.
  revert fr. induction arg_sets as [ | arg_set arg_sets IH]; intros fr; simpl.
  - by exists fr.
  - destruct (test_one_arg_set arg_set sft_func sol_func) as [r | e]; simpl.
    + rewrite add_set_result_at_last.
      destruct (IH (add_set_result fr r)) as (fr' & Hfr' & ? & ? & ?).
      by exists fr'.
    + by exists fr.
Qed.

(** [test_func] when the student's function fails to load within
    [Exception]. *)
Lemma test_func_load_failed (imp : importer) (func : Func.t) (stf : StudentFile)
    (sol_name : string) (sol_func : callable) (e : py_exc) :
  resolve imp sol_name (Func.name func) = Returns sol_func →
  resolve imp (file_xext stf) (Func.name func) = Raises e →
  is_Exception e = true →
  test_func imp func stf sol_name =
    (append_result stf
       {| function_name := Func.name func; score := Func.score func;
          arg_sets_res := []; exc := true |},
     Returns tt).
Proof. intros Hsol Hstf He. unfold test_func. by rewrite Hsol, Hstf, He. Qed.

(** [test_func] when the student's function loads and every evaluation
    returns a result. *)
Lemma test_func_loaded (imp : importer) (func : Func.t) (stf : StudentFile)
    (sol_name : string) (sol_func sft_func : callable)
    (results : list ArgSetTestResult) :
  resolve imp sol_name (Func.name func) = Returns sol_func →
  resolve imp (file_xext stf) (Func.name func) = Returns sft_func →
  Forall2 (λ arg_set r, test_one_arg_set arg_set sft_func sol_func = Returns r)
          (Func.arg_sets func) results →
  test_func imp func stf sol_name =
    (append_result stf
       {| function_name := Func.name func; score := Func.score func;
          arg_sets_res := results; exc := false |},
     Returns tt).
Proof.
  intros Hsol Hstf Hall. unfold test_func. rewrite Hsol, Hstf.
  unfold append_result at 1. by rewrite (test_func_loop_all _ _ _ _ _ _ Hall).
Qed.

(** C3, as stated, fails: loading a submission that calls [sys.exit()]
    raises [SystemExit], which [except Exception] does not catch; the
    exception leaves [test_func] and no result is recorded. *)
Lemma test_func_load_SystemExit_not_recorded :
  resolve imp_scenario (file_xext (student "dave")) (Func.name add_func)
    = Raises (BaseExceptionSub "SystemExit")
  ∧ test_func imp_scenario add_func (student "dave") "solution"
    = (student "dave", Raises (BaseExceptionSub "SystemExit"))
  ∧ function_test_results
      (test_func imp_scenario add_func (student "dave") "solution").1 = [].
Proof. repeat split. Qed.

(** C3, amended: with the solution's function resolved, if resolving the
    student's function raises an exception derived from [Exception],
    [test_func] records a result with the load-failed flag set and no
    argument-set results; if it resolves, [test_func] records a result with
    the flag clear and one argument-set result per argument set, in the
    declared order, given that every evaluation returns one. *)
Theorem test_func_records (imp : importer) (func : Func.t) (stf : StudentFile)
    (sol_name : string) (sol_func : callable) :
  resolve imp sol_name (Func.name func) = Returns sol_func →
  (∀ e, resolve imp (file_xext stf) (Func.name func) = Raises e →
        is_Exception e = true →
        test_func imp func stf sol_name =
          (append_result stf
             {| function_name := Func.name func; score := Func.score func;
                arg_sets_res := []; exc := true |},
           Returns tt))
  ∧ (∀ sft_func results,
        resolve imp (file_xext stf) (Func.name func) = Returns sft_func →
        Forall2 (λ arg_set r, test_one_arg_set arg_set sft_func sol_func = Returns r)
                (Func.arg_sets func) results →
        test_func imp func stf sol_name =
          (append_result stf
             {| function_name := Func.name func; score := Func.score func;
                arg_sets_res := results; exc := false |},
           Returns tt)).
Proof.
  intros Hsol. split.
  - intros e Hstf He. by eapply test_func_load_failed.
  - intros sft_func results Hstf Hall. by eapply test_func_loaded.
Qed.

Lemma test_func_records_witness :
  resolve imp_scenario "solution" (Func.name add_func) = Returns add_sol
  ∧ test_func imp_scenario add_func (student "carol") "solution" =
      (append_result (student "carol")
         {| function_name := "add"; score := 10; arg_sets_res := []; exc := true |},
       Returns tt)
  ∧ test_func imp_scenario add_func (student "bob") "solution" =
      (append_result (student "bob")
         {| function_name := "add"; score := 10;
            arg_sets_res :=
              [ArgSetTestResult_init [VInt 1; VInt 2] (VInt 3) (VInt 3) None;
               ArgSetTestResult_init [VInt 3; VInt 4] (VInt 7) (VInt 8) None];
            exc := false |},
       Returns tt).
Proof.
  pose proof (test_func_records imp_scenario add_func (student "carol")
                "solution" add_sol eq_refl) as [Hfail _].
  pose proof (test_func_records imp_scenario add_func (student "bob")
                "solution" add_sol eq_refl) as [_ Hok].
  split; [reflexivity | split].
  - exact (Hfail (ExceptionSub "AttributeError") eq_refl eq_refl).
  - apply (Hok add_wrong). { reflexivity. }
    repeat constructor.
Defined.

(** C10: a function with no argument sets whose student's function
    resolves earns the full score, although no case was run. *)
Theorem empty_arg_sets_full_score (imp : importer) (func : Func.t)
    (stf : StudentFile) (sol_name : string) (sol_func sft_func : callable) :
  resolve imp sol_name (Func.name func) = Returns sol_func →
  resolve imp (file_xext stf) (Func.name func) = Returns sft_func →
  Func.arg_sets func = [] →
  ∃ r, test_func imp func stf sol_name = (append_result stf r, Returns tt)
       ∧ exc r = false
       ∧ arg_sets_res r = []
       ∧ calc_score r = Func.score func.
Proof.
  intros Hsol Hstf Hnone.
  eexists. split.
  - apply (test_func_loaded imp func stf sol_name sol_func sft_func []);
      [done | done | ]. rewrite Hnone. constructor.
  - done.
Qed.

Lemma empty_arg_sets_full_score_witness :
  resolve imp_scenario "solution" (Func.name untested_func) = Returns add_sol
  ∧ resolve imp_scenario (file_xext (student "bob")) (Func.name untested_func)
    = Returns add_wrong
  ∧ Func.arg_sets untested_func = []
  ∧ ∃ r, test_func imp_scenario untested_func (student "bob") "solution"
           = (append_result (student "bob") r, Returns tt)
         ∧ exc r = false
         ∧ arg_sets_res r = []
         ∧ calc_score r = Func.score untested_func.
Proof.
  repeat (split; [reflexivity | ]).
  exact (empty_arg_sets_full_score imp_scenario untested_func (student "bob")
           "solution" add_sol add_wrong eq_refl eq_refl eq_refl).
Defined.

(** ** The section grader *)

Lemma test_func_file_xext (imp : importer) (func : Func.t) (stf : StudentFile)
    (sol_name : string) :
  file_xext (test_func imp func stf sol_name).1 = file_xext stf.
Proof.
  unfold test_func.
  destruct (resolve imp sol_name _) as [sol_func | e]; [ | done].
  destruct (resolve imp (file_xext stf) _) as [sft_func | e].
  - destruct (test_func_loop_shape sft_func sol_func (file_xext stf)
                (function_test_results stf) (Func.arg_sets func)
                (FuncTestResult_init (Func.name func) (Func.score func) false))
      as (fr' & Heq & _).
    unfold append_result. by rewrite Heq.
  - by destruct (is_Exception e).
Qed.

(** A call of [test_func] that returns has recorded exactly one result,
    for its function. *)
Lemma test_func_returns_graded (imp : importer) (func : Func.t)
    (stf stf' : StudentFile) (sol_name : string) (u : unit) :
  test_func imp func stf sol_name = (stf', Returns u) →
  graded [func] stf stf'.
Proof.
  intros Heq. split.
  - rewrite <- (test_func_file_xext imp func stf sol_name). by rewrite Heq.
  - revert Heq. unfold test_func.
    destruct (resolve imp sol_name _) as [sol_func | e]; [ | done].
    destruct (resolve imp (file_xext stf) _) as [sft_func | e].
    + destruct (test_func_loop_shape sft_func sol_func (file_xext stf)
                  (function_test_results stf) (Func.arg_sets func)
                  (FuncTestResult_init (Func.name func) (Func.score func) false))
        as (fr' & Heq & Hname & Hscore & _).
      unfold append_result. intros Hloop. rewrite Hloop in Heq. simpl in Heq.
      subst stf'. exists [fr']. split; [done | ].
      repeat constructor; done.
    + destruct (is_Exception e); [ | done]. intros [= <-].
      eexists [_]. split; [done | ]. repeat constructor.
Qed.

Lemma graded_cons (func : Func.t) (funcs : list Func.t)
    (stf stf1 stf' : StudentFile) :
  graded [func] stf stf1 → graded funcs stf1 stf' → graded (func :: funcs) stf stf'.
Proof.
  intros [Hx1 (rs1 & Hrs1 & Hall1)] [Hx2 (rs2 & Hrs2 & Hall2)]. split.
  - congruence.
  - exists (rs1 ++ rs2). split.
    + by rewrite Hrs2, Hrs1, app_assoc.
    + change (func :: funcs) with ([func] ++ funcs). by apply Forall2_app.
Qed.

Lemma grade_funcs_returns_graded (imp : importer) (sol_fname : string)
    (funcs : list Func.t) (stf stf' : StudentFile) (u : unit) :
  for_each (λ func stf, test_func imp func stf sol_fname) funcs stf
    = (stf', Returns u) →
  graded funcs stf stf'.
Proof.
  revert stf. induction funcs as [ | func funcs IH]; intros stf; simpl.
  - intros [= <-]. split; [done | ]. exists []. by rewrite app_nil_r.
  - destruct (test_func imp func stf sol_fname) as [stf1 [u1 | e]] eqn:Hone;
      [ | done].
    intros Hrest. eapply graded_cons; [ | by apply IH].
    by eapply test_func_returns_graded.
Qed.

Lemma grade_student_files_returns_graded (imp : importer) (sol_fname : string)
    (funcs : list Func.t) (stfs stfs' : list StudentFile) (u : unit) :
  grade_student_files imp sol_fname funcs stfs = (stfs', Returns u) →
  Forall2 (graded funcs) stfs stfs'.
Proof.
  revert stfs'. induction stfs as [ | stf rest IH]; intros stfs'; simpl.
  - intros [= <-]. constructor.
  - destruct (for_each _ funcs stf) as [stf1 [u1 | e]] eqn:Hone; [ | done].
    destruct (grade_student_files imp sol_fname funcs rest) as [rest' o] eqn:Hrest.
    intros [= <- ->]. constructor; [ | by apply IH].
    by eapply grade_funcs_returns_graded.
Qed.

(** The loop of [test_func] when it runs to its end: every argument set
    has been evaluated and its result appended, in order. *)
Lemma test_func_loop_returns (sft_func sol_func : callable) (name : string)
    (old : list FuncTestResult) (arg_sets : list (list pyval)) :
  ∀ (fr : FuncTestResult) (stf' : StudentFile) (u : unit),
  for_each
    (λ arg_set stf,
       match test_one_arg_set arg_set sft_func sol_func with
       | Returns set_result =>
           (add_set_result_at (length old) set_result stf, Returns tt)
       | Raises e => (stf, Raises e)
       end)
    arg_sets {| file_xext := name; function_test_results := old ++ [fr] |}
  = (stf', Returns u) →
  ∃ results,
    Forall2 (λ arg_set r, test_one_arg_set arg_set sft_func sol_func = Returns r)
            arg_sets results
    ∧ stf' = {| file_xext := name;
                function_test_results :=
                  old ++ [{| function_name := function_name fr; score := score fr;
                             arg_sets_res := arg_sets_res fr ++ results;
                             exc := exc fr |}] |}.
Proof.
  induction arg_sets as [ | arg_set arg_sets IH]; intros fr stf' u; simpl.
  - intros [= <-]. exists []. split; [constructor | ].
    rewrite app_nil_r. by destruct fr.
  - destruct (test_one_arg_set arg_set sft_func sol_func) as [r | e] eqn:Hr; [ | done].
    rewrite add_set_result_at_last. intros Hrest.
    destruct (IH _ _ _ Hrest) as (results & Hall & ->).
    exists (r :: results). split; [by constructor | ].
    simpl. by rewrite <- app_assoc.
Qed.

(** A call of [test_func] that returns has recorded the result for its
    function and the given submission. *)
Lemma test_func_returns_recorded (imp : importer) (func : Func.t)
    (stf stf' : StudentFile) (sol_name : string) (u : unit) :
  test_func imp func stf sol_name = (stf', Returns u) →
  graded_in_full imp sol_name [func] stf stf'.
Proof.
  intros Heq. split.
  - rewrite <- (test_func_file_xext imp func stf sol_name). by rewrite Heq.
  - revert Heq. unfold test_func, recorded_for.
    destruct (resolve imp sol_name _) as [sol_func | e] eqn:Hsol; [ | done].
    destruct (resolve imp (file_xext stf) _) as [sft_func | e] eqn:Hstf.
    + unfold append_result. intros Hloop.
      destruct (test_func_loop_returns _ _ _ _ _ _ _ _ Hloop) as (results & Hall & ->).
      eexists [_]. split; [done | ]. constructor; [ | constructor].
      simpl. split; [done | ]. split; [done | ]. exists sol_func. split; [done | ].
      rewrite Hstf. by split.
    + destruct (is_Exception e) eqn:He; [ | done]. intros [= <-].
      eexists [_]. split; [done | ]. constructor; [ | constructor].
      simpl. split; [done | ]. split; [done | ]. exists sol_func. split; [done | ].
      by rewrite Hstf.
Qed.

Lemma graded_in_full_cons (imp : importer) (sol_fname : string) (func : Func.t)
    (funcs : list Func.t) (stf stf1 stf' : StudentFile) :
  graded_in_full imp sol_fname [func] stf stf1 →
  graded_in_full imp sol_fname funcs stf1 stf' →
  graded_in_full imp sol_fname (func :: funcs) stf stf'.
Proof.
  intros [Hx1 (rs1 & Hrs1 & Hall1)] [Hx2 (rs2 & Hrs2 & Hall2)]. split.
  - congruence.
  - exists (rs1 ++ rs2). split.
    + by rewrite Hrs2, Hrs1, app_assoc.
    + change (func :: funcs) with ([func] ++ funcs).
      apply Forall2_app; [done | ]. by rewrite <- Hx1.
Qed.

Lemma grade_funcs_returns_recorded (imp : importer) (sol_fname : string)
    (funcs : list Func.t) (stf stf' : StudentFile) (u : unit) :
  for_each (λ func stf, test_func imp func stf sol_fname) funcs stf
    = (stf', Returns u) →
  graded_in_full imp sol_fname funcs stf stf'.
Proof.
  revert stf. induction funcs as [ | func funcs IH]; intros stf; simpl.
  - intros [= <-]. split; [done | ]. exists []. split; [by rewrite app_nil_r | constructor].
  - destruct (test_func imp func stf sol_fname) as [stf1 [u1 | e]] eqn:Hone;
      [ | done].
    intros Hrest. eapply graded_in_full_cons; [ | by apply IH].
    by eapply test_func_returns_recorded.
Qed.

Lemma grade_student_files_returns_recorded (imp : importer) (sol_fname : string)
    (funcs : list Func.t) (stfs stfs' : list StudentFile) (u : unit) :
  grade_student_files imp sol_fname funcs stfs = (stfs', Returns u) →
  Forall2 (graded_in_full imp sol_fname funcs) stfs stfs'.
Proof.
  revert stfs'. induction stfs as [ | stf rest IH]; intros stfs'; simpl.
  - intros [= <-]. constructor.
  - destruct (for_each _ funcs stf) as [stf1 [u1 | e]] eqn:Hone; [ | done].
    destruct (grade_student_files imp sol_fname funcs rest) as [rest' o] eqn:Hrest.
    intros [= <- ->]. constructor; [ | by apply IH].
    by eapply grade_funcs_returns_recorded.
Qed.

(** When an exception stops the run, the students before the one being
    graded are complete and those after it are untouched. *)
Lemma grade_student_files_raises_recorded (imp : importer) (sol_fname : string)
    (funcs : list Func.t) (stfs stfs' : list StudentFile) (e : py_exc) :
  grade_student_files imp sol_fname funcs stfs = (stfs', Raises e) →
  ∃ done cur todo done' cur',
    stfs = done ++ cur :: todo
    ∧ stfs' = done' ++ cur' :: todo
    ∧ Forall2 (graded_in_full imp sol_fname funcs) done done'.
Proof.
  revert stfs'. induction stfs as [ | stf rest IH]; intros stfs'; simpl; [done | ].
  destruct (for_each _ funcs stf) as [stf1 [u1 | e1]] eqn:Hone.
  - destruct (grade_student_files imp sol_fname funcs rest) as [rest' o] eqn:Hrest.
    intros [= <- ->].
    destruct (IH rest' eq_refl) as (dn & cur & todo & dn' & cur' & -> & -> & Hall).
    exists (stf :: dn), cur, todo, (stf1 :: dn'), cur'.
    repeat split; try done. constructor; [ | done].
    by eapply grade_funcs_returns_recorded.
  - intros [= <- <-]. by exists [], stf, rest, [], stf1.
Qed.

(** A result recorded for a function shows that nothing propagated from
    grading it. *)
Lemma recorded_for_evaluates (imp : importer) (sol_fname name : string)
    (func : Func.t) (r : FuncTestResult) :
  recorded_for imp sol_fname name func r → evaluates imp sol_fname name func.
Proof.
  intros (_ & _ & sol_func & Hsol & Hrec). exists sol_func. split; [done | ].
  destruct (resolve imp name (Func.name func)) as [sft_func | e].
  - destruct Hrec as [_ Hall]. clear Hsol.
    induction Hall as [ | arg_set res arg_sets results Hres _ IH]; constructor;
      [by exists res | done].
  - by destruct Hrec.
Qed.

(** A load that fails within [Exception], a timeout, a contained
    exception or a wrong answer does not stop [test_func]. *)
Lemma test_func_goes_on (imp : importer) (sol_fname : string) (func : Func.t)
    (stf : StudentFile) :
  evaluates imp sol_fname (file_xext stf) func →
  (test_func imp func stf sol_fname).2 = Returns tt.
Proof.
  intros (sol_func & Hsol & Hstf).
  destruct (resolve imp (file_xext stf) (Func.name func)) as [sft_func | e] eqn:Hload.
  - assert (∃ results,
              Forall2 (λ arg_set r, test_one_arg_set arg_set sft_func sol_func = Returns r)
                      (Func.arg_sets func) results) as [results Hall].
    { induction Hstf as [ | arg_set arg_sets [r Hr] _ [results Hall]].
      - exists []. constructor.
      - exists (r :: results). by constructor. }
    by rewrite (test_func_loaded imp func stf sol_fname sol_func sft_func results).
  - by rewrite (test_func_load_failed imp func stf sol_fname sol_func e).
Qed.

Lemma grade_funcs_goes_on (imp : importer) (sol_fname : string)
    (funcs : list Func.t) :
  ∀ stf : StudentFile,
  Forall (evaluates imp sol_fname (file_xext stf)) funcs →
  (for_each (λ func stf, test_func imp func stf sol_fname) funcs stf).2 = Returns tt.
Proof.
  induction funcs as [ | func funcs IH]; intros stf Hall; simpl; [done | ].
  apply Forall_cons in Hall as [Hfunc Hfuncs].
  pose proof (test_func_goes_on imp sol_fname func stf Hfunc) as Hone.
  pose proof (test_func_file_xext imp func stf sol_fname) as Hx.
  destruct (test_func imp func stf sol_fname) as [stf1 o]. simpl in *. subst o.
  apply IH. by rewrite Hx.
Qed.

Lemma grade_student_files_goes_on (imp : importer) (sol_fname : string)
    (funcs : list Func.t) (stfs : list StudentFile) :
  Forall (λ stf, Forall (evaluates imp sol_fname (file_xext stf)) funcs) stfs →
  (grade_student_files imp sol_fname funcs stfs).2 = Returns tt.
Proof.
  induction 1 as [ | stf rest Hstf _ IH]; simpl; [done | ].
  pose proof (grade_funcs_goes_on imp sol_fname funcs stf Hstf) as Hone.
  destruct (for_each _ funcs stf) as [stf1 o]. simpl in Hone. subst o.
  by destruct (grade_student_files imp sol_fname funcs rest).
Qed.

(** C7, as stated, fails: loading dave's submission raises [SystemExit],
    which [test_func] does not catch; the run stops there, and neither
    dave nor alice, who comes after, gets a result for any function. *)
Lemma grade_section_stopped_by_SystemExit :
  resolve imp_scenario (file_xext (student "dave")) (Func.name add_func)
    = Raises (BaseExceptionSub "SystemExit")
  ∧ grade_section imp_scenario "solution" [add_func; show_func]
      {| student_files := [student "dave"; student "alice"] |}
    = ({| student_files := [student "dave"; student "alice"] |},
       Raises (BaseExceptionSub "SystemExit"))
  ∧ function_test_results (student "dave") = []
  ∧ function_test_results (student "alice") = [].
Proof. repeat split. Qed.

(** C7, amended: a run of [grade_section] that returns has appended to
    each student, in the order of [funcs], exactly one result per function,
    and that result is the one recorded for the pair: flagged and empty
    when resolving the student's function raised within [Exception],
    otherwise unflagged and holding, in order, the evaluation of every
    argument set.  A run stopped by an exception has finished the students
    before the current one and not begun those after.  And the run returns
    exactly when, for every student and every function, the solution's
    function resolves, resolving the student's returns or raises within
    [Exception], and every evaluation returns a result: a load so failed
    and a score of 0 do not make it skip a function. *)
Theorem grade_section_grades_every_pair (imp : importer) (sol_fname : string)
    (funcs : list Func.t) (section : SectionT) :
  let section' := (grade_section imp sol_fname funcs section).1 in
  let o := (grade_section imp sol_fname funcs section).2 in
  (o = Returns tt →
     Forall2 (graded_in_full imp sol_fname funcs)
             (student_files section) (student_files section'))
  ∧ (∀ e, o = Raises e →
       ∃ done cur todo done' cur',
         student_files section = done ++ cur :: todo
         ∧ student_files section' = done' ++ cur' :: todo
         ∧ Forall2 (graded_in_full imp sol_fname funcs) done done')
  ∧ (o = Returns tt ↔
     Forall (λ stf, Forall (evaluates imp sol_fname (file_xext stf)) funcs)
            (student_files section)).
Proof.
  unfold grade_section.
  pose proof (grade_student_files_goes_on imp sol_fname funcs (student_files section))
    as Hgoes.
  destruct (grade_student_files imp sol_fname funcs (student_files section))
    as [stfs o] eqn:Hrun.
  simpl in *.
  assert (Hfull : o = Returns tt →
            Forall2 (graded_in_full imp sol_fname funcs) (student_files section) stfs).
  { intros ->. by eapply grade_student_files_returns_recorded. }
  split; [exact Hfull | ]. split.
  - intros e ->. by eapply grade_student_files_raises_recorded.
  - split; [ | exact Hgoes]. intros Ho. specialize (Hfull Ho). clear Hrun Hgoes.
    induction Hfull as [ | stf stf' stfs0 stfs' [_ (rs & _ & Hall)] _ IH];
      constructor; [ | done].
    clear IH. induction Hall as [ | func r funcs0 rs0 Hrec _ IH]; constructor;
      [by eapply recorded_for_evaluates | done].
Qed.

(** The scenario: carol's [add] fails to load and bob's is wrong (0 points
    each); both are still graded on [show] afterwards. *)
Example grade_section_scenario :
  let section :=
    {| student_files := [student "carol"; student "bob"; student "alice"] |} in
  let run := grade_section imp_scenario "solution" [add_func; show_func] section in
  run.2 = Returns tt
  ∧ (λ stf, (λ r, (function_name r, exc r, calc_score r))
              <$> function_test_results stf) <$> student_files run.1
    = [[("add", true, 0); ("show", false, 5)];
       [("add", false, 0); ("show", false, 5)];
       [("add", false, 10); ("show", false, 5)]].
Proof. split; reflexivity. Qed.

(** ** The report header *)

(** C9: the header template is the stated string, fifteen [#] on each
    side, and the rendered header holds the function name, the score
    received (0 after a failed load, the value of [calc_score] otherwise)
    and the configured score. *)
Theorem header_template_and_rendering :
  FUNC_TEST_HEADER
    = "############### function: %s, score: %d/%d###############" +:+ nl
  ∧ SEPERATOR = "###############"
  ∧ String.length SEPERATOR = 15%nat
  ∧ ∀ r : FuncTestResult,
      header r =
        Returns (SEPERATOR +:+ " function: " +:+ function_name r
                 +:+ ", score: " +:+ str_int (if exc r then 0 else calc_score r)
                 +:+ "/" +:+ str_int (score r) +:+ SEPERATOR +:+ nl).
Proof.
  split; [reflexivity | ]. split; [reflexivity | ]. split; [reflexivity | ].
  intros r. unfold header, score_recieved. reflexivity.
Qed.

(* ================================================================= *)
(** * Further properties of the engine *)

(** ** The timeout executor and the evaluator *)

(** X1: what the triple of [run_with_timeout] says about the call.  The
    flag is set exactly when the call raised the timeout signal, which is
    never reported as a runtime error although it derives from
    [Exception]; the error text is set exactly when the call raised
    anything else; and the value is the call's own, or [None] when the
    call raised. *)
Theorem run_with_timeout_classifies (func : callable) (t : bool) (v : pyval)
    (s : option string) :
  run_with_timeout func = Returns (t, v, s) →
  (t = true ↔ call func = Raises TimeoutException)
  ∧ (s = Some RUN_TIME_ERR_STR ↔ ∃ e, call func = Raises e ∧ e ≠ TimeoutException)
  ∧ (call func = Returns v ∨ (v = VNone ∧ ∃ e, call func = Raises e)).
Proof.
  rewrite run_with_timeout_eq.
  destruct (call func) as [v' | [ | cls | cls]]; simpl; [ | | | done].
  - intros [= <- <- <-]. split; [done | ]. split; [ | by left].
    split; [done | by intros (e & ? & _)].
  - intros [= <- <- <-]. split; [done | ]. split; [ | right; eauto].
    split; [done | ]. intros (e & [= <-] & Hne). done.
  - intros [= <- <- <-]. split; [done | ]. split; [ | right; eauto].
    split; [ | done]. intros _. by exists (ExceptionSub cls).
Qed.

Lemma run_with_timeout_classifies_witness :
  run_with_timeout loops_forever = Returns (true, VNone, None)
  ∧ (true = true ↔ call loops_forever = Raises TimeoutException)
  ∧ (None = Some RUN_TIME_ERR_STR
     ↔ ∃ e, call loops_forever = Raises e ∧ e ≠ TimeoutException)
  ∧ (call loops_forever = Returns VNone
     ∨ (VNone = VNone ∧ ∃ e, call loops_forever = Raises e)).
Proof.
  split; [reflexivity | ].
  exact (run_with_timeout_classifies loops_forever true VNone None eq_refl).
Defined.

(** X2: the order of the two calls in [test_one_arg_set].  With the
    arguments bound, the student's function is called first: an exception
    of its own outside [Exception] propagates, whatever the solution would
    do; and when the student's call is contained, an exception raised by
    the solution propagates. *)
Theorem test_one_arg_set_propagates (arg_set : list pyval)
    (stf_func sol_func : callable) (e : py_exc) :
  (fn stf_func (bound stf_func ++ arg_set) = Raises e →
   is_Exception e = false →
   test_one_arg_set arg_set stf_func sol_func = Raises e)
  ∧ ((∀ e', fn stf_func (bound stf_func ++ arg_set) = Raises e' →
            is_Exception e' = true) →
     fn sol_func (bound sol_func ++ arg_set) = Raises e →
     test_one_arg_set arg_set stf_func sol_func = Raises e).
Proof.
  rewrite test_one_arg_set_eq. simpl. split.
  - intros -> He. destruct e; try done.
  - intros Hstf ->.
    destruct (fn stf_func _) as [v | e1]; [done | ].
    rewrite (Hstf e1 eq_refl). by destruct (is_TimeoutException e1).
Qed.

Lemma test_one_arg_set_propagates_witness :
  (fn calls_exit (bound calls_exit ++ [VInt 1]) = Raises (BaseExceptionSub "SystemExit")
   ∧ is_Exception (BaseExceptionSub "SystemExit") = false
   ∧ test_one_arg_set [VInt 1] calls_exit raises_ValueError
     = Raises (BaseExceptionSub "SystemExit"))
  ∧ ((∀ e', fn loops_forever (bound loops_forever ++ [VInt 1]) = Raises e' →
            is_Exception e' = true)
     ∧ fn raises_ValueError (bound raises_ValueError ++ [VInt 1])
       = Raises (ExceptionSub "ValueError")
     ∧ test_one_arg_set [VInt 1] loops_forever raises_ValueError
       = Raises (ExceptionSub "ValueError")).
Proof.
  assert (H : ∀ e', fn loops_forever (bound loops_forever ++ [VInt 1]) = Raises e' →
                    is_Exception e' = true).
  { intros e' He'. vm_compute in He'. by inversion He'. }
  split.
  - split; [reflexivity | ]. split; [reflexivity | ].
    exact (proj1 (test_one_arg_set_propagates [VInt 1] calls_exit raises_ValueError
                    (BaseExceptionSub "SystemExit")) eq_refl eq_refl).
  - split; [exact H | ]. split; [reflexivity | ].
    exact (proj2 (test_one_arg_set_propagates [VInt 1] loops_forever raises_ValueError
                    (ExceptionSub "ValueError")) H eq_refl).
Defined.

Lemma py_eq_refl (v : pyval) : py_eq v v = true.
Proof.
  induction v as [ | b | z | s | l IH] using pyval_nested_ind; simpl.
  - done.
  - apply Z.eqb_refl.
  - apply Z.eqb_refl.
  - apply String.eqb_refl.
  - induction IH as [ | x l Hx _ IHl]; [done | ]. by rewrite Hx, IHl.
Qed.

(** X3: when the student's function returns the very value the solution
    returns, and that value is [None], a [bool], an [int], a [str] or a
    list of such values, lists within lists included, the argument set is
    marked correct, with no message.  (On these values [==] is reflexive;
    a [float] is not among them.) *)
Theorem equal_return_marked_correct (arg_set : list pyval)
    (stf_func sol_func : callable) (v : pyval) :
  fn stf_func (bound stf_func ++ arg_set) = Returns v →
  fn sol_func (bound sol_func ++ arg_set) = Returns v →
  test_one_arg_set arg_set stf_func sol_func =
    Returns {| inputs := arg_set; expected := v; actual := v;
               exception_str := None; is_correct := true |}.
Proof.
  intros Hstf Hsol. rewrite test_one_arg_set_eq, Hstf, Hsol. simpl.
  unfold ArgSetTestResult_init. by rewrite py_eq_refl.
Qed.

Lemma equal_return_marked_correct_witness :
  fn add_sol (bound add_sol ++ [VInt 1; VInt 2]) = Returns (VInt 3)
  ∧ fn add_wrong (bound add_wrong ++ [VInt 1; VInt 2]) = Returns (VInt 3)
  ∧ test_one_arg_set [VInt 1; VInt 2] add_wrong add_sol =
      Returns {| inputs := [VInt 1; VInt 2]; expected := VInt 3; actual := VInt 3;
                 exception_str := None; is_correct := true |}.
Proof.
  split; [reflexivity | ]. split; [reflexivity | ].
  exact (equal_return_marked_correct [VInt 1; VInt 2] add_wrong add_sol (VInt 3)
           eq_refl eq_refl).
Defined.

(** X4: a call that raises within [Exception], the timeout signal
    included, is marked incorrect, with [actual = None], whenever the
    solution returns anything but [None]. *)
Theorem raised_call_marked_incorrect (arg_set : list pyval)
    (stf_func sol_func : callable) (e : py_exc) (k : pyval) :
  fn stf_func (bound stf_func ++ arg_set) = Raises e →
  is_Exception e = true →
  fn sol_func (bound sol_func ++ arg_set) = Returns k →
  k ≠ VNone →
  ∃ r, test_one_arg_set arg_set stf_func sol_func = Returns r
       ∧ is_correct r = false
       ∧ actual r = VNone
       ∧ expected r = k
       ∧ exception_str r =
           Some (if is_TimeoutException e then INFINITE_LOOP_STR else RUN_TIME_ERR_STR).
Proof.
  intros Hstf He Hsol Hk. rewrite test_one_arg_set_eq, Hstf, Hsol, He. simpl.
  assert (py_eq k VNone = false) as Hne.
  { apply not_true_is_false. by rewrite py_eq_None_r. }
  destruct (is_TimeoutException e); eexists; (split; [done | ]); simpl; by rewrite Hne.
Qed.

Lemma raised_call_marked_incorrect_witness :
  fn raises_ValueError (bound raises_ValueError ++ [VInt 3; VInt 4])
    = Raises (ExceptionSub "ValueError")
  ∧ is_Exception (ExceptionSub "ValueError") = true
  ∧ fn add_sol (bound add_sol ++ [VInt 3; VInt 4]) = Returns (VInt 7)
  ∧ VInt 7 ≠ VNone
  ∧ ∃ r, test_one_arg_set [VInt 3; VInt 4] raises_ValueError add_sol = Returns r
         ∧ is_correct r = false
         ∧ actual r = VNone
         ∧ expected r = VInt 7
         ∧ exception_str r =
             Some (if is_TimeoutException (ExceptionSub "ValueError")
                   then INFINITE_LOOP_STR else RUN_TIME_ERR_STR).
Proof.
  split; [reflexivity | ]. split; [reflexivity | ]. split; [reflexivity | ].
  split; [discriminate | ].
  apply (raised_call_marked_incorrect [VInt 3; VInt 4] raises_ValueError add_sol
           (ExceptionSub "ValueError") (VInt 7)); [reflexivity | reflexivity | reflexivity | discriminate].
Defined.

(** ** Scoring *)

(** X5: how [add_set_result] and [calc_score] compose.  One more correct
    result leaves the score as it was; one incorrect result brings it to 0,
    and no later result brings it back. *)
Theorem calc_score_add_set_result (fr : FuncTestResult) (r : ArgSetTestResult) :
  calc_score (add_set_result fr r) = (if is_correct r then calc_score fr else 0)
  ∧ (calc_score fr = 0 → calc_score (add_set_result fr r) = 0).
Proof.
  unfold calc_score. simpl. rewrite !calc_score_loop_spec, forallb_app. simpl.
  destruct (exc fr), (forallb is_correct (arg_sets_res fr)), (is_correct r);
    simpl; auto.
Qed.

(** ** The function evaluator, in every outcome *)

(** The loop of [test_func], whatever the evaluations do: the object
    recorded last gains some results, at most one per argument set, and
    neither they nor the outcome depend on what was recorded before. *)
Lemma test_func_loop_general (sft_func sol_func : callable)
    (arg_sets : list (list pyval)) :
  ∀ fr : FuncTestResult,
  ∃ (k : list ArgSetTestResult) (o : outcome unit),
    (length k ≤ length arg_sets)%nat
    ∧ ∀ (name : string) (old : list FuncTestResult),
        for_each
          (λ arg_set stf,
             match test_one_arg_set arg_set sft_func sol_func with
             | Returns set_result =>
                 (add_set_result_at (length old) set_result stf, Returns tt)
             | Raises e => (stf, Raises e)
             end)
          arg_sets {| file_xext := name; function_test_results := old ++ [fr] |}
        = ({| file_xext := name;
              function_test_results :=
                old ++ [{| function_name := function_name fr; score := score fr;
                           arg_sets_res := arg_sets_res fr ++ k;
                           exc := exc fr |}] |},
           o).
Proof.
  induction arg_sets as [ | arg_set arg_sets IH]; intros fr.
  - exists [], (Returns tt). split; [done | ]. intros name old. simpl.
    rewrite app_nil_r. by destruct fr.
  - destruct (test_one_arg_set arg_set sft_func sol_func) as [r | e] eqn:Hr.
    + destruct (IH (add_set_result fr r)) as (k & o & Hlen & Hrun).
      exists (r :: k), o. split; [simpl; lia | ]. intros name old. simpl.
      rewrite Hr, add_set_result_at_last, Hrun. simpl. by rewrite <- app_assoc.
    + exists [], (Raises e). split; [simpl; lia | ]. intros name old. simpl.
      rewrite Hr, app_nil_r. by destruct fr.
Qed.

(** What one call of [test_func] adds to a student: at most one result,
    for its function, the same whatever the student already holds. *)
Lemma test_func_delta (imp : importer) (func : Func.t) (sol_name name : string) :
  ∃ (delta : list FuncTestResult) (o : outcome unit),
    (length delta ≤ 1)%nat
    ∧ Forall (result_of func) delta
    ∧ ∀ rs, test_func imp func
              {| file_xext := name; function_test_results := rs |} sol_name
            = ({| file_xext := name; function_test_results := rs ++ delta |}, o).
Proof.
  unfold test_func. simpl.
  destruct (resolve imp sol_name (Func.name func)) as [sol_func | e].
  - destruct (resolve imp name (Func.name func)) as [sft_func | e].
    + destruct (test_func_loop_general sft_func sol_func (Func.arg_sets func)
                  (FuncTestResult_init (Func.name func) (Func.score func) false))
        as (k & o & _ & Hrun).
      exists [{| function_name := Func.name func; score := Func.score func;
                 arg_sets_res := k; exc := false |}], o.
      split; [done | ]. split; [by repeat constructor | ].
      intros rs. unfold append_result. simpl. apply Hrun.
    + destruct (is_Exception e).
      * exists [FuncTestResult_init (Func.name func) (Func.score func) true],
               (Returns tt).
        split; [done | ]. split; [by repeat constructor | done].
      * exists [], (Raises e). split; [simpl; lia | ]. split; [constructor | ].
        intros rs. by rewrite app_nil_r.
  - exists [], (Raises e). split; [simpl; lia | ]. split; [constructor | ].
    intros rs. by rewrite app_nil_r.
Qed.

(** X6: the result [test_func] records for a function, and whether it
    raises, do not depend on the results the student already holds: no
    earlier function changes what a later one is given. *)
Theorem test_func_independent_of_recorded (imp : importer) (func : Func.t)
    (sol_name name : string) (rs1 rs2 : list FuncTestResult) :
  ∃ (delta : list FuncTestResult) (o : outcome unit),
    test_func imp func {| file_xext := name; function_test_results := rs1 |} sol_name
      = ({| file_xext := name; function_test_results := rs1 ++ delta |}, o)
    ∧ test_func imp func {| file_xext := name; function_test_results := rs2 |} sol_name
      = ({| file_xext := name; function_test_results := rs2 ++ delta |}, o).
Proof.
  destruct (test_func_delta imp func sol_name name) as (delta & o & _ & _ & Hrun).
  exists delta, o. by rewrite !Hrun.
Qed.

Lemma test_func_loop_raise (sft_func sol_func : callable) (name : string)
    (old : list FuncTestResult) (evaluated : list (list pyval))
    (results : list ArgSetTestResult) (bad : list pyval)
    (rest : list (list pyval)) (e : py_exc) :
  Forall2 (λ arg_set r, test_one_arg_set arg_set sft_func sol_func = Returns r)
          evaluated results →
  test_one_arg_set bad sft_func sol_func = Raises e →
  ∀ fr : FuncTestResult,
  for_each
    (λ arg_set stf,
       match test_one_arg_set arg_set sft_func sol_func with
       | Returns set_result =>
           (add_set_result_at (length old) set_result stf, Returns tt)
       | Raises e => (stf, Raises e)
       end)
    (evaluated ++ bad :: rest)
    {| file_xext := name; function_test_results := old ++ [fr] |}
  = ({| file_xext := name;
        function_test_results :=
          old ++ [{| function_name := function_name fr; score := score fr;
                     arg_sets_res := arg_sets_res fr ++ results;
                     exc := exc fr |}] |},
     Raises e).
Proof.
  intros Hall Hbad.
  induction Hall as [ | arg_set r evaluated results Hr _ IH]; intros fr; simpl.
  - rewrite Hbad, app_nil_r. by destruct fr.
  - rewrite Hr, add_set_result_at_last, IH. simpl. by rewrite <- app_assoc.
Qed.

(** X7: when an evaluation raises, [test_func] stops there and raises the
    same exception, leaving recorded a result with the flag clear that
    holds the results of the argument sets before, and of no other. *)
Theorem test_func_stops_at_raise (imp : importer) (func : Func.t)
    (stf : StudentFile) (sol_name : string) (sol_func sft_func : callable)
    (evaluated : list (list pyval)) (results : list ArgSetTestResult)
    (bad : list pyval) (rest : list (list pyval)) (e : py_exc) :
  resolve imp sol_name (Func.name func) = Returns sol_func →
  resolve imp (file_xext stf) (Func.name func) = Returns sft_func →
  Func.arg_sets func = evaluated ++ bad :: rest →
  Forall2 (λ arg_set r, test_one_arg_set arg_set sft_func sol_func = Returns r)
          evaluated results →
  test_one_arg_set bad sft_func sol_func = Raises e →
  test_func imp func stf sol_name =
    (append_result stf
       {| function_name := Func.name func; score := Func.score func;
          arg_sets_res := results; exc := false |},
     Raises e).
Proof.
  intros Hsol Hstf Hsets Hall Hbad. unfold test_func.
  rewrite Hsol, Hstf, Hsets. unfold append_result at 1.
  by rewrite (test_func_loop_raise _ _ _ _ _ _ _ _ _ Hall Hbad).
Qed.

Lemma test_func_stops_at_raise_witness :
  resolve imp_with_erin "solution" (Func.name add_func) = Returns add_sol
  ∧ resolve imp_with_erin (file_xext (student "erin")) (Func.name add_func)
    = Returns add_exits_on_three
  ∧ Func.arg_sets add_func = [[VInt 1; VInt 2]] ++ [VInt 3; VInt 4] :: []
  ∧ test_one_arg_set [VInt 3; VInt 4] add_exits_on_three add_sol
    = Raises (BaseExceptionSub "SystemExit")
  ∧ test_func imp_with_erin add_func (student "erin") "solution" =
      (append_result (student "erin")
         {| function_name := "add"; score := 10;
            arg_sets_res :=
              [ArgSetTestResult_init [VInt 1; VInt 2] (VInt 3) (VInt 3) None];
            exc := false |},
       Raises (BaseExceptionSub "SystemExit")).
Proof.
  split; [reflexivity | ]. split; [reflexivity | ]. split; [reflexivity | ].
  split; [reflexivity | ].
  apply (test_func_stops_at_raise imp_with_erin add_func (student "erin")
           "solution" add_sol add_exits_on_three [[VInt 1; VInt 2]]
           [ArgSetTestResult_init [VInt 1; VInt 2] (VInt 3) (VInt 3) None]
           [VInt 3; VInt 4] []);
    [reflexivity | reflexivity | reflexivity | | reflexivity].
  repeat constructor.
Defined.

(** ** The section grader, in every outcome *)

(** X8: a solution whose function does not resolve stops the run at the
    first student and the first function, before anything is recorded or
    any submission is loaded. *)
Theorem solution_failure_halts (imp : importer) (sol_fname : string)
    (func : Func.t) (funcs : list Func.t) (stf : StudentFile)
    (stfs : list StudentFile) (e : py_exc) :
  resolve imp sol_fname (Func.name func) = Raises e →
  grade_section imp sol_fname (func :: funcs) {| student_files := stf :: stfs |}
  = ({| student_files := stf :: stfs |}, Raises e).
Proof.
  intros Hsol. unfold grade_section. simpl. unfold test_func. by rewrite Hsol.
Qed.

Lemma solution_failure_halts_witness :
  resolve imp_scenario "missing" (Func.name add_func)
    = Raises (ExceptionSub "ModuleNotFoundError")
  ∧ grade_section imp_scenario "missing" (add_func :: [show_func])
      {| student_files := student "alice" :: [student "bob"] |}
    = ({| student_files := student "alice" :: [student "bob"] |},
       Raises (ExceptionSub "ModuleNotFoundError")).
Proof.
  split; [reflexivity | ].
  exact (solution_failure_halts imp_scenario "missing" add_func [show_func]
           (student "alice") [student "bob"] _ eq_refl).
Defined.

(** X9: with no function to grade, or no student, [grade_section] returns
    at once with the section as it was; it loads nothing, so even a missing
    solution goes unnoticed. *)
Theorem grade_section_nothing_to_do (imp : importer) (sol_fname : string)
    (funcs : list Func.t) (section : SectionT) :
  grade_section imp sol_fname [] section = (section, Returns tt)
  ∧ grade_section imp sol_fname funcs {| student_files := [] |}
    = ({| student_files := [] |}, Returns tt).
Proof.
  split; [ | done]. unfold grade_section. destruct section as [stfs]. simpl.
  assert (grade_student_files imp sol_fname [] stfs = (stfs, Returns tt)) as ->; [ | done].
  induction stfs as [ | stf rest IH]; simpl; [done | ]. by rewrite IH.
Qed.

(** What the inner loop adds to a student: at most one result per
    function, after those already held. *)
Lemma grade_funcs_delta (imp : importer) (sol_fname : string)
    (funcs : list Func.t) (stf : StudentFile) :
  ∃ delta,
    (length delta ≤ length funcs)%nat
    ∧ (for_each (λ func stf, test_func imp func stf sol_fname) funcs stf).1
      = {| file_xext := file_xext stf;
           function_test_results := function_test_results stf ++ delta |}.
Proof.
  revert stf. induction funcs as [ | func funcs IH]; intros [name rs]; simpl.
  - exists []. split; [done | ]. by rewrite app_nil_r.
  - destruct (test_func_delta imp func sol_fname name) as (d1 & o & Hlen1 & _ & Hrun).
    rewrite Hrun. destruct o as [u | e].
    + destruct (IH {| file_xext := name; function_test_results := rs ++ d1 |})
        as (d2 & Hlen2 & Hrest).
      exists (d1 ++ d2). split; [rewrite length_app; lia | ].
      rewrite Hrest. simpl. by rewrite app_assoc.
    + exists d1. split; [lia | done].
Qed.

(** X10: whatever happens, [grade_section] only appends.  Each student of
    the section is still there, in place, under the same name; the results
    it held come first, unchanged; and it has gained at most one result per
    function. *)
Theorem grade_section_only_appends (imp : importer) (sol_fname : string)
    (funcs : list Func.t) (section : SectionT) :
  Forall2
    (λ stf stf',
       file_xext stf' = file_xext stf
       ∧ function_test_results stf `prefix_of` function_test_results stf'
       ∧ (length (function_test_results stf')
          ≤ length (function_test_results stf) + length funcs)%nat)
    (student_files section)
    (student_files (grade_section imp sol_fname funcs section).1).
Proof.
  unfold grade_section. destruct section as [stfs]. simpl.
  assert (Hstay : ∀ l : list StudentFile,
             Forall2
               (λ stf stf',
                  file_xext stf' = file_xext stf
                  ∧ function_test_results stf `prefix_of` function_test_results stf'
                  ∧ (length (function_test_results stf')
                     ≤ length (function_test_results stf) + length funcs)%nat)
               l l).
  { intros l. induction l as [ | stf l IHl]; constructor; [ | done].
    split; [done | ]. split; [done | lia]. }
  induction stfs as [ | stf rest IH]; simpl; [constructor | ].
  destruct (grade_funcs_delta imp sol_fname funcs stf) as (delta & Hlen & Hone).
  destruct (for_each _ funcs stf) as [stf1 o]. simpl in Hone. subst stf1.
  assert (Hhead : file_xext {| file_xext := file_xext stf;
                               function_test_results := function_test_results stf ++ delta |}
                  = file_xext stf
                  ∧ function_test_results stf
                    `prefix_of` (function_test_results stf ++ delta)
                  ∧ (length (function_test_results stf ++ delta)
                     ≤ length (function_test_results stf) + length funcs)%nat).
  { split; [done | ]. split; [by exists delta | rewrite length_app; lia]. }
  destruct o as [u | e].
  - destruct (grade_student_files imp sol_fname funcs rest) as [rest' o'].
    simpl in *. by constructor.
  - simpl. constructor; [done | apply Hstay].
Qed.



Lemma total_received_app (name : string) (rs delta : list FuncTestResult) :
  total_received {| file_xext := name; function_test_results := rs ++ delta |}
  = total_received {| file_xext := name; function_test_results := rs |}
    + foldr (λ r acc, calc_score r + acc) 0 delta.
Proof.
  unfold total_received. simpl.
  induction rs as [ | r rs IH]; simpl; [done | ]. rewrite IH. lia.
Qed.

Lemma calc_score_bounds (r : FuncTestResult) :
  (0 ≤ score r)%Z → (0 ≤ calc_score r ≤ score r)%Z.
Proof.
  intros Hs. unfold calc_score. rewrite calc_score_loop_spec.
  destruct (exc r), (forallb is_correct (arg_sets_res r)); lia.
Qed.

(** X12: with no negative score configured, a run that returns has given
    each student no less than nothing and no more than the functions are
    worth together. *)
Theorem grade_section_total_bounded (imp : importer) (sol_fname : string)
    (funcs : list Func.t) (section section' : SectionT) :
  grade_section imp sol_fname funcs section = (section', Returns tt) →
  Forall (λ func, (0 ≤ Func.score func)%Z) funcs →
  Forall2
    (λ stf stf',
       (total_received stf ≤ total_received stf'
        ≤ total_received stf + total_possible funcs)%Z)
    (student_files section) (student_files section').
Proof.
  unfold grade_section. destruct section as [stfs]. simpl.
  destruct (grade_student_files imp sol_fname funcs stfs) as [stfs' o] eqn:Hrun.
  intros [= <- ->] Hpos. simpl.
  eapply Forall2_impl; [by eapply grade_student_files_returns_graded | ].
  intros [name rs] [name' rs'] [Hname (delta & Hrs & Hall)]. simpl in *. subst.
  rewrite total_received_app.
  assert (0 ≤ foldr (λ r acc, calc_score r + acc) 0 delta ≤ total_possible funcs)%Z;
    [ | lia].
  clear Hrun. induction Hall as [ | func r funcs delta [_ Hscore] _ IH]; simpl; [done | ].
  apply Forall_cons in Hpos as [Hfunc Hpos]. specialize (IH Hpos).
  pose proof (calc_score_bounds r). lia.
Qed.

Lemma grade_section_total_bounded_witness :
  grade_section imp_scenario "solution" [add_func; show_func]
    {| student_files := [student "bob"; student "alice"] |}
  = ((grade_section imp_scenario "solution" [add_func; show_func]
        {| student_files := [student "bob"; student "alice"] |}).1,
     Returns tt)
  ∧ Forall (λ func, (0 ≤ Func.score func)%Z) [add_func; show_func]
  ∧ Forall2
      (λ stf stf',
         (total_received stf ≤ total_received stf'
          ≤ total_received stf + total_possible [add_func; show_func])%Z)
      [student "bob"; student "alice"]
      (student_files
         (grade_section imp_scenario "solution" [add_func; show_func]
            {| student_files := [student "bob"; student "alice"] |}).1).
Proof.
  assert (Hpos : Forall (λ func, (0 ≤ Func.score func)%Z) [add_func; show_func]).
  { repeat constructor; simpl; lia. }
  split; [reflexivity | ]. split; [exact Hpos | ].
  exact (grade_section_total_bounded imp_scenario "solution" [add_func; show_func]
           {| student_files := [student "bob"; student "alice"] |} _ eq_refl Hpos).
Defined.

(** ** The report *)

Lemma string_length_app (s t : string) :
  String.length (s +:+ t) = (String.length s + String.length t)%nat.
Proof. induction s as [ | c s IH]; simpl; [done | by rewrite IH]. Qed.

Lemma substring_prefix (s t : string) :
  String.substring 0 (String.length s) (s +:+ t) = s.
Proof.
  induction s as [ | c s IH]; simpl; [by destruct t | by rewrite IH].
Qed.

(** Taking the first and the last character off a bracketed text leaves
    the text. *)
Lemma strip_ends_brackets (s : string) : strip_ends ("[" +:+ s +:+ "]") = s.
Proof.
  unfold strip_ends.
  replace (String.length ("[" +:+ s +:+ "]") - 2)%nat with (String.length s).
  - change ("[" +:+ s +:+ "]") with (String "["%char (s +:+ "]")).
    cbn [String.substring]. apply substring_prefix.
  - rewrite !string_length_app. simpl. lia.
Qed.

(** X13: the line of inputs shows the arguments of the argument set in
    order, each as [repr] shows it, separated by a comma and a space,
    between parentheses: the slice takes off exactly the brackets of the
    list, whatever the arguments hold, and an empty argument set shows as
    [inputs: ()]. *)
Theorem in_str_shows_arguments (repr_str : string → string)
    (self : ArgSetTestResult) :
  in_str repr_str self =
    "inputs: (" +:+ join ", " (map (py_repr repr_str) (inputs self)) +:+ ")" +:+ nl
  ∧ (inputs self = [] → in_str repr_str self = "inputs: ()" +:+ nl).
Proof.
  assert (in_str repr_str self =
            "inputs: (" +:+ join ", " (map (py_repr repr_str) (inputs self))
            +:+ ")" +:+ nl) as Hline.
  { unfold in_str, py_str. cbn [py_repr]. by rewrite strip_ends_brackets. }
  split; [done | ]. intros Hnone. rewrite Hline, Hnone. reflexivity.
Qed.

Lemma str_int_head (z : Z) :
  ∃ c s, str_int z = String c s ∧ c ≠ Ascii.ascii_of_nat 34.
Proof.
  unfold str_int. destruct (Z.to_int z) as [d | d]; simpl.
  - destruct d; simpl; eexists _, _; (split; [reflexivity | discriminate]).
  - eexists _, _. split; [reflexivity | discriminate].
Qed.

(** What stands in the value column for a value that is not a string
    never begins with a double quote. *)
Lemma value_cell_head (repr_str : string → string) (w : pyval) :
  is_str w = false →
  ∃ c s, value_cell repr_str w = String c s ∧ c ≠ Ascii.ascii_of_nat 34.
Proof.
  destruct w as [ | [ | ] | z | s | l]; simpl; try done; intros _;
    try (eexists _, _; split; [reflexivity | discriminate]).
  apply str_int_head.
Qed.

(** X14: the double quotes tell strings apart in the grid: the cell of a
    string value is never the cell of a value of another type, so the
    string ["5"] and the number [5] do not show alike. *)
Theorem value_cell_distinguishes_str (repr_str : string → string) (v w : pyval) :
  is_str v = true → is_str w = false →
  value_cell repr_str v ≠ value_cell repr_str w.
Proof.
  intros Hv Hw. destruct v as [ | | | s | ]; try done.
  destruct (value_cell_head repr_str w Hw) as (c & t & -> & Hc).
  unfold value_cell. simpl. intros [= Heq _]. by apply Hc.
Qed.

Lemma value_cell_distinguishes_str_witness :
  is_str (VStr "5") = true
  ∧ is_str (VInt 5) = false
  ∧ value_cell (λ s, s) (VStr "5") ≠ value_cell (λ s, s) (VInt 5).
Proof.
  split; [reflexivity | ]. split; [reflexivity | ].
  exact (value_cell_distinguishes_str (λ s, s) (VStr "5") (VInt 5) eq_refl eq_refl).
Defined.

(** X15: the report of a function that failed to load.  The result
    [test_func] records scores 0, and its report is the header, showing 0
    out of the configured score, followed by the load-time message and
    nothing else: no count and no case. *)
Theorem load_failed_report (imp : importer) (func : Func.t) (stf : StudentFile)
    (sol_name : string) (sol_func : callable) (e : py_exc) :
  resolve imp sol_name (Func.name func) = Returns sol_func →
  resolve imp (file_xext stf) (Func.name func) = Raises e →
  is_Exception e = true →
  ∃ r, test_func imp func stf sol_name = (append_result stf r, Returns tt)
       ∧ calc_score r = 0
       ∧ ∀ render : ArgSetTestResult → string,
           FuncTestResult_str render r =
             Returns ((SEPERATOR +:+ " function: " +:+ Func.name func
                       +:+ ", score: 0/" +:+ str_int (Func.score func)
                       +:+ SEPERATOR +:+ nl)
                      +:+ LOAD_TIME_ERR_STR).
Proof.
  intros Hsol Hstf He. eexists. split.
  - by eapply test_func_load_failed.
  - split; [reflexivity | ]. intros render. reflexivity.
Qed.

Lemma load_failed_report_witness :
  resolve imp_scenario "solution" (Func.name add_func) = Returns add_sol
  ∧ resolve imp_scenario (file_xext (student "carol")) (Func.name add_func)
    = Raises (ExceptionSub "AttributeError")
  ∧ is_Exception (ExceptionSub "AttributeError") = true
  ∧ ∃ r, test_func imp_scenario add_func (student "carol") "solution"
           = (append_result (student "carol") r, Returns tt)
         ∧ calc_score r = 0
         ∧ ∀ render : ArgSetTestResult → string,
             FuncTestResult_str render r =
               Returns ((SEPERATOR +:+ " function: " +:+ Func.name add_func
                         +:+ ", score: 0/" +:+ str_int (Func.score add_func)
                         +:+ SEPERATOR +:+ nl)
                        +:+ LOAD_TIME_ERR_STR).
Proof.
  split; [reflexivity | ]. split; [reflexivity | ]. split; [reflexivity | ].
  exact (load_failed_report imp_scenario add_func (student "carol") "solution"
           add_sol (ExceptionSub "AttributeError") eq_refl eq_refl eq_refl).
Defined.

(** X16: the report of a function with no argument sets whose student's
    function loads: the full score out of the full score, and [0 cases were
    tested], with no case after it. *)
Theorem untested_function_report (imp : importer) (func : Func.t)
    (stf : StudentFile) (sol_name : string) (sol_func sft_func : callable) :
  resolve imp sol_name (Func.name func) = Returns sol_func →
  resolve imp (file_xext stf) (Func.name func) = Returns sft_func →
  Func.arg_sets func = [] →
  ∃ r, test_func imp func stf sol_name = (append_result stf r, Returns tt)
       ∧ ∀ render : ArgSetTestResult → string,
           FuncTestResult_str render r =
             Returns ((SEPERATOR +:+ " function: " +:+ Func.name func
                       +:+ ", score: " +:+ str_int (Func.score func)
                       +:+ "/" +:+ str_int (Func.score func)
                       +:+ SEPERATOR +:+ nl)
                      +:+ "0 cases were tested" +:+ nl).
Proof.
  intros Hsol Hstf Hnone. eexists. split.
  - apply (test_func_loaded imp func stf sol_name sol_func sft_func []);
      [done | done | ]. rewrite Hnone. constructor.
  - intros render. reflexivity.
Qed.

Lemma untested_function_report_witness :
  resolve imp_scenario "solution" (Func.name untested_func) = Returns add_sol
  ∧ resolve imp_scenario (file_xext (student "bob")) (Func.name untested_func)
    = Returns add_wrong
  ∧ Func.arg_sets untested_func = []
  ∧ ∃ r, test_func imp_scenario untested_func (student "bob") "solution"
           = (append_result (student "bob") r, Returns tt)
         ∧ ∀ render : ArgSetTestResult → string,
             FuncTestResult_str render r =
               Returns ((SEPERATOR +:+ " function: " +:+ Func.name untested_func
                         +:+ ", score: " +:+ str_int (Func.score untested_func)
                         +:+ "/" +:+ str_int (Func.score untested_func)
                         +:+ SEPERATOR +:+ nl)
                        +:+ "0 cases were tested" +:+ nl).
Proof.
  split; [reflexivity | ]. split; [reflexivity | ]. split; [reflexivity | ].
  exact (untested_function_report imp_scenario untested_func (student "bob")
           "solution" add_sol add_wrong eq_refl eq_refl eq_refl).
Defined.

(* ================================================================= *)
(** * The store: copies and frames *)

Import Store.

(** ** Reasoning about [deepcopy_go] *)

(** The runs of [deepcopy_go] and of its loop, as an induction principle:
    [P] speaks of a copied value, [Q] of a run of the loop. *)
Lemma deepcopy_go_run
    (P : val → gmap nat nat → list (list val) →
         val → gmap nat nat → list (list val) → Prop)
    (Q : nat → list val → gmap nat nat → list (list val) →
         gmap nat nat → list (list val) → Prop) :
  (∀ a memo h, P (Atom a) memo h (Atom a) memo h) →
  (∀ l y memo h, memo !! l = Some y → P (Ref l) memo h (Ref y) memo h) →
  (∀ l elems memo h memo' h',
      memo !! l = None → h !! l = Some elems →
      Q (length h) elems (<[l:=length h]> memo) (h ++ [[]]) memo' h' →
      P (Ref l) memo h (Ref (length h)) memo' h') →
  (∀ y memo h, Q y [] memo h memo h) →
  (∀ y a rest memo h a' memo1 h1 memo' h',
      P a memo h a' memo1 h1 →
      Q y rest memo1 (alter (λ o, o ++ [a']) y h1) memo' h' →
      Q y (a :: rest) memo h memo' h') →
  ∀ fuel x memo h x' memo' h',
    deepcopy_go fuel x memo h = Some (x', memo', h') → P x memo h x' memo' h'.
Proof.
  intros Hatom Hhit Hmiss Hnil Hcons.
  induction fuel as [ | fuel IH]; intros x memo h x' memo' h'; simpl; [done | ].
  assert (Hloop : ∀ y elems memo h memo' h',
             copy_elems (deepcopy_go fuel) y elems memo h = Some (memo', h') →
             Q y elems memo h memo' h').
  { intros y elems. induction elems as [ | a rest IHrest]; intros m g m' g'; simpl.
    - intros [= <- <-]. apply Hnil.
    - destruct (deepcopy_go fuel a m g) as [[[a' m1] g1] | ] eqn:Ha; [ | done].
      intros Hrest. eapply Hcons; [by apply IH | by apply IHrest]. }
  destruct x as [a | l].
  - intros [= <- <- <-]. apply Hatom.
  - destruct (memo !! l) as [y | ] eqn:Hmemo.
    + intros [= <- <- <-]. by apply Hhit.
    + destruct (h !! l) as [elems | ] eqn:Hl; [ | done].
      destruct (copy_elems _ _ _ _ _) as [[m1 g1] | ] eqn:Hcopy; [ | done].
      intros [= <- <- <-]. eapply Hmiss; [done | done | by apply Hloop].
Qed.

Lemma fresh_inv_alloc (n : nat) (memo : gmap nat nat) (h : list (list val)) (l : nat) :
  fresh_inv n memo h → fresh_inv n (<[l:=length h]> memo) (h ++ [[]]).
Proof.
  intros (Hn & Hmemo & Hnew). unfold fresh_inv. rewrite length_app. simpl.
  split; [lia | split].
  - intros l' y. rewrite lookup_insert. case_decide.
    + intros [= <-]. lia.
    + intros Hy. specialize (Hmemo _ _ Hy). lia.
  - intros l' o r Hl' Ho Hr.
    destruct (decide (l' < length h)%nat) as [Hlt | Hge].
    + rewrite lookup_app_l in Ho; [ | done]. specialize (Hnew _ _ _ Hl' Ho Hr). lia.
    + rewrite lookup_app_r in Ho; [ | lia].
      destruct (l' - length h)%nat; simpl in Ho; [ | done].
      injection Ho as <-. by apply elem_of_nil in Hr.
Qed.

Lemma fresh_inv_append (n : nat) (memo : gmap nat nat) (h : list (list val))
    (y : nat) (a : val) :
  fresh_inv n memo h → (n ≤ y)%nat →
  (∀ r, a = Ref r → (n ≤ r < length h)%nat) →
  fresh_inv n memo (alter (λ o, o ++ [a]) y h).
Proof.
  intros (Hn & Hmemo & Hnew) Hy Ha. unfold fresh_inv. rewrite length_alter.
  split; [done | split; [done | ]].
  intros l o r Hl. rewrite list_lookup_alter. case_decide as Hyl.
  - subst l. destruct (h !! y) as [o' | ] eqn:Ho'; simpl; [ | done].
    intros [= <-]. rewrite elem_of_app, list_elem_of_singleton.
    intros [Hr | <-]; [by eapply Hnew | by apply Ha].
  - intros Ho Hr. by eapply Hnew.
Qed.

(** The five steps of a run keep the frame. *)
Lemma frame_atom (n : nat) (a : atom) (memo : gmap nat nat) (h : list (list val)) :
  fresh_inv n memo h → copy_frame n h (Atom a) memo h.
Proof.
  intros Hinv. split; [done | ]. split; [lia | ]. split; [done | ]. by intros y [=].
Qed.

Lemma frame_hit (n l y : nat) (memo : gmap nat nat) (h : list (list val)) :
  memo !! l = Some y → fresh_inv n memo h → copy_frame n h (Ref y) memo h.
Proof.
  intros Hy Hinv. split; [done | ]. split; [lia | ]. split; [done | ].
  intros ? [= <-]. destruct Hinv as (_ & Hmemo & _). by eapply Hmemo.
Qed.

Lemma frame_miss (n : nat) (memo memo' : gmap nat nat) (h h' : list (list val)) :
  fresh_inv n memo h →
  loop_frame n (length h) (h ++ [[]]) memo' h' →
  copy_frame n h (Ref (length h)) memo' h'.
Proof.
  intros (Hn & _) (Hinv' & Hlen & Hkeep).
  rewrite length_app in Hlen, Hkeep. simpl in Hlen, Hkeep.
  split; [done | ]. split; [lia | ]. split.
  - intros l' Hl'. rewrite Hkeep; [ | lia | lia]. by rewrite lookup_app_l.
  - intros ? [= <-]. lia.
Qed.

Lemma frame_nil (n y : nat) (memo : gmap nat nat) (h : list (list val)) :
  fresh_inv n memo h → loop_frame n y h memo h.
Proof. intros Hinv. split; [done | ]. split; [lia | done]. Qed.

Lemma frame_cons (n y : nat) (a' : val) (memo1 memo' : gmap nat nat)
    (h h1 h' : list (list val)) :
  copy_frame n h a' memo1 h1 →
  loop_frame n y (alter (λ o, o ++ [a']) y h1) memo' h' →
  loop_frame n y h memo' h'.
Proof.
  intros (Hinv1 & Hlen1 & Hkeep1 & Hfresh) (Hinv' & Hlen' & Hkeep').
  rewrite length_alter in Hlen', Hkeep'.
  split; [done | ]. split; [lia | ].
  intros l Hl Hne. rewrite Hkeep'; [ | lia | done].
  rewrite list_lookup_alter_ne; [ | done]. by apply Hkeep1.
Qed.

Lemma fresh_inv_next (n y : nat) (a' : val) (memo1 : gmap nat nat)
    (h h1 : list (list val)) :
  copy_frame n h a' memo1 h1 → (n ≤ y < length h)%nat →
  fresh_inv n memo1 (alter (λ o, o ++ [a']) y h1)
  ∧ (n ≤ y < length (alter (λ o, o ++ [a']) y h1))%nat.
Proof.
  intros (Hinv1 & Hlen1 & _ & Hfresh) Hy. split.
  - apply fresh_inv_append; [done | lia | done].
  - rewrite length_alter. lia.
Qed.

(** A copy leaves the objects that were there as they were, and what it
    returns and allocates refers to new objects only. *)
Lemma deepcopy_go_fresh (n fuel : nat) (x x' : val) (memo memo' : gmap nat nat)
    (h h' : list (list val)) :
  deepcopy_go fuel x memo h = Some (x', memo', h') →
  fresh_inv n memo h →
  copy_frame n h x' memo' h'.
Proof.
  revert fuel x memo h x' memo' h'.
  apply (deepcopy_go_run
    (λ x memo h x' memo' h', fresh_inv n memo h → copy_frame n h x' memo' h')
    (λ y elems memo h memo' h',
       fresh_inv n memo h → (n ≤ y < length h)%nat → loop_frame n y h memo' h')).
  - intros a memo h. apply frame_atom.
  - intros l y memo h. apply frame_hit.
  - intros l elems memo h memo' h' _ _ Hloop Hinv.
    eapply frame_miss; [exact Hinv | ]. apply Hloop; [by apply fresh_inv_alloc | ].
    destruct Hinv as (Hn & _). rewrite length_app. simpl. lia.
  - intros y memo h Hinv _. by apply frame_nil.
  - intros y a rest memo h a' memo1 h1 memo' h' Ha Hrest Hinv Hy.
    eapply frame_cons; [by apply Ha | ].
    destruct (fresh_inv_next n y a' memo1 h h1 (Ha Hinv) Hy). by apply Hrest.
Qed.

(** ** Regions of the store *)

Lemma reach_closed (h : list (list val)) (S : nat → Prop) (v : val) (l : nat) :
  closed_in h S → in_region S v → reach h v l → S l.
Proof.
  intros Hclosed Hv Hreach. induction Hreach as [l | l o v l' Hl Hin _ IH].
  - by apply Hv.
  - apply IH. intros r ->. eapply Hclosed; [ | done | done]. by apply Hv.
Qed.

Lemma closed_in_agree (h h' : list (list val)) (S : nat → Prop) :
  closed_in h S → (∀ l, S l → h' !! l = h !! l) → closed_in h' S.
Proof.
  intros Hclosed Hsame l o r Hl Ho Hr. rewrite Hsame in Ho; [ | done].
  by eapply Hclosed.
Qed.

Lemma reach_agree (h h' : list (list val)) (S : nat → Prop) (v : val) (l : nat) :
  closed_in h S → (∀ l, S l → h' !! l = h !! l) → in_region S v →
  reach h' v l → reach h v l.
Proof.
  intros Hclosed Hsame Hv Hreach.
  induction Hreach as [l | l o v l' Hl Hin _ IH]; [constructor | ].
  assert (S l) as HSl by by apply Hv.
  rewrite Hsame in Hl; [ | done].
  eapply reach_step; [done | done | ]. apply IH.
  intros r ->. by eapply Hclosed.
Qed.

Lemma footprint_region (h : list (list val)) (S : nat → Prop) (args : list val)
    (l : nat) :
  closed_in h S → Forall (in_region S) args → footprint h args l → S l.
Proof.
  intros Hclosed Hargs (v & Hv & Hreach).
  eapply reach_closed; [done | | done].
  by eapply (proj1 (Forall_forall _ _) Hargs).
Qed.

Lemma wf_closed (h : list (list val)) :
  wf h ↔ closed_in h (λ l, (l < length h)%nat).
Proof.
  split.
  - intros Hwf l o r _ Ho Hr. exact (Hwf l o (Ref r) Ho Hr).
  - intros Hclosed l o [a | r] Ho Hr; simpl; [done | ].
    eapply Hclosed; [ | done | done]. by eapply lookup_lt_Some.
Qed.

(** ** What [deepcopy] allocates *)

Lemma fresh_inv_start (h : list (list val)) : fresh_inv (length h) ∅ h.
Proof.
  split; [done | split].
  - intros l y Hy. by rewrite lookup_empty in Hy.
  - intros l o r Hl Ho. apply lookup_lt_Some in Ho. lia.
Qed.

(** [deepcopy] leaves every object of the store as it was; its result and
    all that the result leads to are objects it has just allocated. *)
Lemma deepcopy_fresh (x x' : val) (h h' : list (list val)) :
  deepcopy x h = Some (x', h') →
  (length h ≤ length h')%nat
  ∧ (∀ l, (l < length h)%nat → h' !! l = h !! l)
  ∧ in_region (λ l, (length h ≤ l < length h')%nat) x'
  ∧ closed_in h' (λ l, (length h ≤ l < length h')%nat).
Proof.
  unfold deepcopy.
  destruct (deepcopy_go _ x ∅ h) as [[[y memo'] g] | ] eqn:Hgo; [ | done].
  intros [= <- <-].
  destruct (deepcopy_go_fresh (length h) _ _ _ _ _ _ _ Hgo (fresh_inv_start h))
    as ((_ & _ & Hnew) & Hlen & Hkeep & Hy).
  split; [done | ]. split; [done | ]. split; [done | ].
  intros l o r [Hl _] Ho Hr. by eapply Hnew.
Qed.

Lemma deepcopy_wf (x x' : val) (h h' : list (list val)) :
  deepcopy x h = Some (x', h') → wf h → wf h'.
Proof.
  intros Hcopy Hwf.
  destruct (deepcopy_fresh _ _ _ _ Hcopy) as (Hlen & Hkeep & _ & Hnew).
  apply wf_closed. apply wf_closed in Hwf.
  intros l o r Hl Ho Hr.
  destruct (decide (l < length h)%nat) as [Hold | Hge].
  - rewrite Hkeep in Ho; [ | done].
    pose proof (Hwf l o r Hold Ho Hr). simpl in *. lia.
  - assert (length h ≤ r < length h')%nat; [ | lia].
    eapply (Hnew l o r); [lia | done | done].
Qed.

(** ** The binding loop *)

Lemma bind_args_separated (n : nat) (args : list val) :
  ∀ (stf_func sol_func stf_func' sol_func' : callable) (h h' : list (list val))
    (SA SB : nat → Prop),
  bind_args args stf_func sol_func h = Some (stf_func', sol_func', h') →
  separated n h stf_func sol_func SA SB →
  (length h ≤ length h')%nat
  ∧ (∀ l, (l < length h)%nat → h' !! l = h !! l)
  ∧ fn stf_func' = fn stf_func
  ∧ fn sol_func' = fn sol_func
  ∧ ∃ SA' SB', separated n h' stf_func' sol_func' SA' SB'.
Proof.
  induction args as [ | arg rest IH];
    intros stf_func sol_func stf_func' sol_func' h h' SA SB; simpl.
  - intros [= <- <- <-] Hsep. repeat (split; [done | ]). by exists SA, SB.
  - destruct (deepcopy arg h) as [[c h1] | ] eqn:Hc; [ | done].
    destruct (deepcopy arg h1) as [[d h2] | ] eqn:Hd; [ | done].
    intros Hrest (Hn & HA & HB & Hdisj & HcA & HcB & HbA & HbB).
    destruct (deepcopy_fresh _ _ _ _ Hc) as (Hlen1 & Hkeep1 & Hc1 & Hnew1).
    destruct (deepcopy_fresh _ _ _ _ Hd) as (Hlen2 & Hkeep2 & Hd2 & Hnew2).
    set (SA1 := λ l, SA l ∨ (length h ≤ l < length h1)%nat).
    set (SB1 := λ l, SB l ∨ (length h1 ≤ l < length h2)%nat).
    assert (Hkeep12 : ∀ l, (l < length h)%nat → h2 !! l = h !! l).
    { intros l Hl. rewrite Hkeep2; [ | lia]. by apply Hkeep1. }
    destruct (IH (partial stf_func c) (partial sol_func d) stf_func' sol_func'
                h2 h' SA1 SB1 Hrest) as (Hlen' & Hkeep' & Hfa & Hfb & Hex).
    { unfold separated, SA1, SB1.
      split; [lia | ].
      split; [ | split; [ | split; [ | split; [ | split; [ | split]]]]].
      - intros l [Hl | Hl]; [specialize (HA l Hl) | ]; lia.
      - intros l [Hl | Hl]; [specialize (HB l Hl) | ]; lia.
      - intros l [Hl | Hl] [Hl' | Hl'].
        + by eapply Hdisj.
        + specialize (HA l Hl). lia.
        + specialize (HB l Hl'). lia.
        + lia.
      - intros l o r [Hl | Hl] Ho Hr.
        + left. rewrite Hkeep12 in Ho; [ | specialize (HA l Hl); lia].
          by eapply HcA.
        + right. rewrite Hkeep2 in Ho; [ | lia]. by eapply Hnew1.
      - intros l o r [Hl | Hl] Ho Hr.
        + left. rewrite Hkeep12 in Ho; [ | specialize (HB l Hl); lia].
          by eapply HcB.
        + right. by eapply Hnew2.
      - simpl. apply Forall_app. split.
        + eapply Forall_impl; [exact HbA | ]. intros v Hv r ->. left. by apply Hv.
        + constructor; [ | constructor]. intros r ->. right. by apply Hc1.
      - simpl. apply Forall_app. split.
        + eapply Forall_impl; [exact HbB | ]. intros v Hv r ->. left. by apply Hv.
        + constructor; [ | constructor]. intros r ->. right. by apply Hd2. }
    split; [lia | ]. split; [ | done].
    intros l Hl. rewrite Hkeep'; [ | lia]. by apply Hkeep12.
Qed.

Lemma bind_args_wf (args : list val) :
  ∀ (stf_func sol_func stf_func' sol_func' : callable) (h h' : list (list val)),
  bind_args args stf_func sol_func h = Some (stf_func', sol_func', h') →
  wf h → wf h'.
Proof.
  induction args as [ | arg rest IH];
    intros stf_func sol_func stf_func' sol_func' h h'; simpl.
  - by intros [= <- <- <-].
  - destruct (deepcopy arg h) as [[c h1] | ] eqn:Hc; [ | done].
    destruct (deepcopy arg h1) as [[d h2] | ] eqn:Hd; [ | done].
    intros Hrest Hwf. eapply IH; [done | ].
    eapply deepcopy_wf; [done | ]. by eapply deepcopy_wf.
Qed.

(** ** What [deepcopy] copies *)

Lemma renamed_weaken (memo memo' : gmap nat nat) (v v' : val) :
  memo ⊆ memo' → renamed memo v v' → renamed memo' v v'.
Proof.
  intros Hsub. destruct v as [a | l]; simpl; [done | ].
  intros (y & Hy & ->). exists y. split; [ | done]. by eapply lookup_weaken.
Qed.

(** Every object entered in [memo] during a run is, when the run ends,
    the finished copy of its original. *)
Lemma deepcopy_go_copy (n fuel : nat) (x x' : val) (memo memo' : gmap nat nat)
    (h h' : list (list val)) :
  deepcopy_go fuel x memo h = Some (x', memo', h') →
  fresh_inv n memo h →
  closed_in h (λ l, (l < n)%nat) →
  in_region (λ l, (l < n)%nat) x →
  keys_old n memo →
  copy_frame n h x' memo' h' ∧ copy_faithful n x memo h x' memo' h'.
Proof.
  revert fuel x memo h x' memo' h'.
  apply (deepcopy_go_run
    (λ x memo h x' memo' h',
       fresh_inv n memo h → closed_in h (λ l, (l < n)%nat) →
       in_region (λ l, (l < n)%nat) x → keys_old n memo →
       copy_frame n h x' memo' h' ∧ copy_faithful n x memo h x' memo' h')
    (λ y elems memo h memo' h',
       fresh_inv n memo h → closed_in h (λ l, (l < n)%nat) →
       Forall (in_region (λ l, (l < n)%nat)) elems → keys_old n memo →
       (n ≤ y < length h)%nat →
       loop_frame n y h memo' h' ∧ loop_faithful n y elems memo h memo' h')).
  - intros a memo h Hinv _ _ Hkeys. split; [by apply frame_atom | ].
    split; [done | ]. split; [done | ]. split; [done | ].
    intros l y Hy Hnone. congruence.
  - intros l y memo h Hy Hinv _ _ Hkeys. split; [by eapply frame_hit | ].
    split; [done | ]. split; [done | ]. split; [by exists y | ].
    intros l' y' Hy' Hnone. congruence.
  - intros l elems memo h memo' h' Hnone Hl Hloop Hinv Hold Hx Hkeys.
    assert (l < n)%nat as Hln by by apply Hx.
    pose proof Hinv as (Hn & _).
    pose proof (lookup_lt_Some _ _ _ Hl) as Hllen.
    destruct Hloop as [Hframe Hfaith].
    { by apply fresh_inv_alloc. }
    { intros l0 o r Hl0 Ho Hr. rewrite lookup_app_l in Ho; [ | lia]. by eapply Hold. }
    { apply Forall_forall. intros v Hv r ->. by eapply (Hold l elems r). }
    { intros l0 y0. rewrite lookup_insert. case_decide; [by subst | apply Hkeys]. }
    { rewrite length_app. simpl. lia. }
    split; [by eapply frame_miss | ].
    destruct Hfaith as (Hsub & Hkeys' & Hnew & (elems' & Hren & Hcontent)).
    destruct Hframe as (Hinv' & Hlen & Hkeep).
    rewrite length_app in Hlen, Hkeep. simpl in Hlen, Hkeep.
    assert (memo' !! l = Some (length h)) as Hl'.
    { eapply lookup_weaken; [ | exact Hsub]. apply lookup_insert_eq. }
    split; [transitivity (<[l:=length h]> memo); [by apply insert_subseteq | done] | ].
    split; [done | ]. split; [by exists (length h) | ].
    intros l2 y2 Hy2 Hnone2. destruct (decide (l2 = l)) as [-> | Hne].
    + assert (y2 = length h) as -> by congruence. split; [lia | ].
      exists elems, elems'. split; [ | split; [ | done]].
      * rewrite Hkeep; [ | lia | lia]. by rewrite lookup_app_l.
      * apply (Hcontent []). by apply list_lookup_middle.
    + destruct (Hnew l2 y2 Hy2) as [Hge Hcop]; [by rewrite lookup_insert_ne | ].
      rewrite length_app in Hge. simpl in Hge. split; [lia | done].
  - intros y memo h Hinv _ _ Hkeys _. split; [by apply frame_nil | ].
    split; [done | ]. split; [done | ]. split; [intros; congruence | ].
    exists []. split; [constructor | ]. intros o Ho. by rewrite app_nil_r.
  - intros y a rest memo h a' memo1 h1 memo' h' Ha Hrest Hinv Hold Hargs Hkeys Hy.
    apply Forall_cons in Hargs as [Ha_reg Hrest_reg].
    destruct (Ha Hinv Hold Ha_reg Hkeys) as [Hframe1 Hfaith1].
    destruct (fresh_inv_next n y a' memo1 h h1 Hframe1 Hy) as [Hinv1' Hy1'].
    pose proof Hframe1 as (Hinv1 & Hlen1 & Hkeep1 & Hfresh1).
    pose proof Hinv as (Hn & _).
    destruct Hfaith1 as (Hsub1 & Hkeys1 & Hren1 & Hnew1).
    destruct Hrest as [Hframe2 Hfaith2]; [done | | done | done | done | ].
    { intros l0 o r Hl0 Ho Hr.
      rewrite list_lookup_alter_ne in Ho; [ | lia].
      rewrite Hkeep1 in Ho; [ | lia]. by eapply Hold. }
    split; [by eapply frame_cons | ].
    pose proof Hframe2 as (Hinv2 & Hlen2 & Hkeep2).
    rewrite length_alter in Hlen2, Hkeep2.
    destruct Hfaith2 as (Hsub2 & Hkeys2 & Hnew2 & (rest' & Hren2 & Hcontent2)).
    split; [by transitivity memo1 | ]. split; [done | ]. split.
    + intros l2 y2 Hy2 Hnone. destruct (memo1 !! l2) as [y2' | ] eqn:H1.
      * assert (y2' = y2) as ->.
        { pose proof (lookup_weaken _ _ _ _ H1 Hsub2). congruence. }
        destruct (Hnew1 l2 y2 H1 Hnone) as [Hge (el & el' & Hl2 & Hy2' & Hf)].
        pose proof (Hkeys1 _ _ H1) as Hl2n.
        pose proof (lookup_lt_Some _ _ _ Hl2) as Hl2len.
        pose proof (lookup_lt_Some _ _ _ Hy2') as Hy2len.
        split; [done | ]. exists el, el'. split; [ | split].
        -- rewrite Hkeep2; [ | done | lia]. rewrite list_lookup_alter_ne; [done | lia].
        -- rewrite Hkeep2; [ | done | lia]. rewrite list_lookup_alter_ne; [done | lia].
        -- eapply Forall2_impl; [exact Hf | ]. intros v v'. by apply renamed_weaken.
      * destruct (Hnew2 l2 y2 Hy2 H1) as [Hge Hcop].
        rewrite length_alter in Hge. split; [lia | done].
    + exists (a' :: rest'). split.
      * constructor; [by eapply renamed_weaken | done].
      * intros o Ho. rewrite (Hcontent2 (o ++ [a'])); [by rewrite <- app_assoc | ].
        rewrite list_lookup_alter_eq, Hkeep1; [ | lia]. by rewrite Ho.
Qed.

(** ** Values read from the store *)

(** The value read from [v] depends only on a closed set of objects that
    holds [v]. *)
Lemma snapshot_agree (h h' : list (list val)) (S : nat → Prop) (d : nat) :
  closed_in h S → (∀ l, S l → h' !! l = h !! l) →
  ∀ v, in_region S v → snapshot d h' v = snapshot d h v.
Proof.
  intros Hclosed Hsame.
  induction d as [ | d IH]; intros [a | l] Hv; simpl; try done.
  rewrite Hsame; [ | by apply Hv].
  destruct (h !! l) as [elems | ] eqn:Hl; simpl; [ | done].
  f_equal. apply Forall_mapM_ext, Forall_forall. intros v Hin. apply IH.
  intros r ->. eapply Hclosed; [ | done | done]. by apply Hv.
Qed.

Lemma snapshot_extend (h h' : list (list val)) (d : nat) (v : val) :
  wf h → val_ok h v → (∀ l, (l < length h)%nat → h' !! l = h !! l) →
  snapshot d h' v = snapshot d h v.
Proof.
  intros Hwf Hv Hkeep.
  apply (snapshot_agree h h' (λ l, (l < length h)%nat)); [by apply wf_closed | done | ].
  by intros r ->.
Qed.

(** A value and its renaming read the same when every renamed object is a
    finished copy. *)
Lemma snapshot_copy (memo : gmap nat nat) (h : list (list val)) (d : nat) :
  (∀ l y, memo !! l = Some y → copied memo h l y) →
  ∀ v v', renamed memo v v' → snapshot d h v' = snapshot d h v.
Proof.
  intros Hcopied.
  induction d as [ | d IH]; intros [a | l] v'; simpl.
  - by intros ->.
  - by intros (y & _ & ->).
  - by intros ->.
  - intros (y & Hy & ->). simpl.
    destruct (Hcopied l y Hy) as (elems & elems' & -> & -> & Hren). simpl.
    f_equal. apply Forall2_mapM_ext, Forall2_flip.
    eapply Forall2_impl; [exact Hren | ]. intros v v' Hv. by apply IH.
Qed.

(** [deepcopy] returns a value that reads as the original does. *)
Lemma deepcopy_snapshot (x x' : val) (h h' : list (list val)) :
  wf h → val_ok h x → deepcopy x h = Some (x', h') →
  ∀ d, snapshot d h' x' = snapshot d h x.
Proof.
  intros Hwf Hx. unfold deepcopy.
  destruct (deepcopy_go _ x ∅ h) as [[[y memo'] g] | ] eqn:Hgo; [ | done].
  intros [= <- <-] d.
  destruct (deepcopy_go_copy (length h) _ _ _ _ _ _ _ Hgo) as [Hframe Hfaith].
  { apply fresh_inv_start. }
  { by apply wf_closed. }
  { by intros r ->. }
  { intros l y' Hy'. by rewrite lookup_empty in Hy'. }
  destruct Hframe as (_ & _ & Hkeep & _).
  destruct Hfaith as (_ & _ & Hren & Hnew).
  rewrite (snapshot_copy memo' g d) with (v := x); [ | | done].
  - by apply snapshot_extend.
  - intros l y' Hy'. apply (Hnew l y' Hy'). apply lookup_empty.
Qed.

(** ** [deepcopy] returns *)

Lemma keys_old_size (n : nat) (memo : gmap nat nat) :
  keys_old n memo → (size memo ≤ n)%nat.
Proof.
  intros Hkeys. rewrite <- (size_dom (D := gset nat)).
  transitivity (size (set_seq 0 n : gset nat)); [ | by rewrite size_set_seq].
  apply subseteq_size. intros l [y Hy]%elem_of_dom.
  apply elem_of_set_seq. specialize (Hkeys l y Hy). lia.
Qed.

(** The recursion descends once per object not yet in [memo]. *)
Lemma deepcopy_go_total (n : nat) :
  ∀ (fuel : nat) (x : val) (memo : gmap nat nat) (h : list (list val)),
  fresh_inv n memo h →
  closed_in h (λ l, (l < n)%nat) →
  in_region (λ l, (l < n)%nat) x →
  keys_old n memo →
  (n - size memo < fuel)%nat →
  is_Some (deepcopy_go fuel x memo h).
Proof.
  induction fuel as [ | fuel IH]; intros x memo h Hinv Hold Hx Hkeys Hfuel; [lia | ].
  assert (Hloop : ∀ (elems : list val) (y : nat) (memo : gmap nat nat)
                    (h : list (list val)),
             fresh_inv n memo h → closed_in h (λ l, (l < n)%nat) →
             Forall (in_region (λ l, (l < n)%nat)) elems → keys_old n memo →
             (n ≤ y < length h)%nat → (n - size memo < fuel)%nat →
             is_Some (copy_elems (deepcopy_go fuel) y elems memo h)).
  { clear x memo h Hinv Hold Hx Hkeys Hfuel.
    induction elems as [ | a rest IHrest];
      intros y memo h Hinv Hold Hargs Hkeys Hy Hfuel; simpl; [done | ].
    apply Forall_cons in Hargs as [Ha Hrest].
    destruct (IH a memo h) as [[[a' memo1] h1] Hgo]; try done.
    rewrite Hgo.
    destruct (deepcopy_go_copy n _ _ _ _ _ _ _ Hgo) as [Hframe Hfaith]; try done.
    destruct (fresh_inv_next n y a' memo1 h h1 Hframe Hy) as [Hinv1 Hy1].
    destruct Hframe as (_ & Hlen1 & Hkeep1 & _).
    destruct Hfaith as (Hsub & Hkeys1 & _).
    pose proof Hinv as (Hn & _).
    apply IHrest; try done.
    - intros l0 o r Hl0 Ho Hr.
      rewrite list_lookup_alter_ne in Ho; [ | lia].
      rewrite Hkeep1 in Ho; [ | lia]. by eapply Hold.
    - apply map_subseteq_size in Hsub. lia. }
  simpl. destruct x as [a | l]; [done | ].
  destruct (memo !! l) as [y | ] eqn:Hmemo; [done | ].
  assert (l < n)%nat as Hln by by apply Hx.
  pose proof Hinv as (Hn & _).
  destruct (lookup_lt_is_Some_2 h l) as [elems Hl]; [lia | ].
  rewrite Hl.
  assert (keys_old n (<[l:=length h]> memo)) as Hkeys'.
  { intros l0 y0. rewrite lookup_insert. case_decide; [by subst | apply Hkeys]. }
  destruct (Hloop elems (length h) (<[l:=length h]> memo) (h ++ [[]]))
    as [[memo' h'] Hcopy].
  - by apply fresh_inv_alloc.
  - intros l0 o r Hl0 Ho Hr. rewrite lookup_app_l in Ho; [ | lia]. by eapply Hold.
  - apply Forall_forall. intros v Hv r ->. by eapply (Hold l elems r).
  - done.
  - rewrite length_app. simpl. lia.
  - apply keys_old_size in Hkeys'.
    rewrite map_size_insert_None in Hkeys' |- *; [ | done | done]. lia.
  - by rewrite Hcopy.
Qed.

Lemma deepcopy_total (x : val) (h : list (list val)) :
  wf h → val_ok h x → is_Some (deepcopy x h).
Proof.
  intros Hwf Hx.
  destruct (deepcopy_go_total (length h) (S (length h)) x ∅ h) as [[[x' memo'] h'] Hgo].
  - apply fresh_inv_start.
  - by apply wf_closed.
  - by intros r ->.
  - intros l y Hy. by rewrite lookup_empty in Hy.
  - rewrite map_size_empty. lia.
  - unfold deepcopy. by rewrite Hgo.
Qed.

(** ** The binding loop copies every argument *)

Lemma val_ok_mono (h h' : list (list val)) (v : val) :
  (length h ≤ length h')%nat → val_ok h v → val_ok h' v.
Proof. destruct v; simpl; [done | lia]. Qed.

Lemma bind_args_total (args : list val) :
  ∀ (stf_func sol_func : callable) (h : list (list val)),
  wf h → Forall (val_ok h) args →
  is_Some (bind_args args stf_func sol_func h).
Proof.
  induction args as [ | arg rest IH]; intros stf_func sol_func h Hwf Hargs; simpl;
    [done | ].
  apply Forall_cons in Hargs as [Harg Hrest].
  destruct (deepcopy_total arg h Hwf Harg) as [[c h1] Hc]. rewrite Hc.
  destruct (deepcopy_fresh _ _ _ _ Hc) as (Hlen1 & _).
  pose proof (deepcopy_wf _ _ _ _ Hc Hwf) as Hwf1.
  destruct (deepcopy_total arg h1 Hwf1 (val_ok_mono _ _ _ Hlen1 Harg)) as [[d h2] Hd].
  rewrite Hd.
  destruct (deepcopy_fresh _ _ _ _ Hd) as (Hlen2 & _).
  apply IH; [by eapply deepcopy_wf | ].
  eapply Forall_impl; [exact Hrest | ]. intros v. apply val_ok_mono. lia.
Qed.

Lemma bind_args_frame (args : list val) :
  ∀ (stf_func sol_func stf_func' sol_func' : callable) (h h' : list (list val)),
  bind_args args stf_func sol_func h = Some (stf_func', sol_func', h') →
  (length h ≤ length h')%nat ∧ (∀ l, (l < length h)%nat → h' !! l = h !! l).
Proof.
  induction args as [ | arg rest IH];
    intros stf_func sol_func stf_func' sol_func' h h'; simpl.
  - by intros [= <- <- <-].
  - destruct (deepcopy arg h) as [[c h1] | ] eqn:Hc; [ | done].
    destruct (deepcopy arg h1) as [[d h2] | ] eqn:Hd; [ | done].
    intros Hrest.
    destruct (deepcopy_fresh _ _ _ _ Hc) as (Hlen1 & Hkeep1 & _).
    destruct (deepcopy_fresh _ _ _ _ Hd) as (Hlen2 & Hkeep2 & _).
    destruct (IH _ _ _ _ _ _ Hrest) as (Hlen' & Hkeep').
    split; [lia | ]. intros l Hl.
    rewrite Hkeep'; [ | lia]. rewrite Hkeep2; [ | lia]. by apply Hkeep1.
Qed.

Lemma in_region_val_ok (h : list (list val)) (n : nat) (v : val) :
  in_region (λ l, (n ≤ l < length h)%nat) v → val_ok h v.
Proof.
  destruct v as [a | r]; simpl; [done | ].
  intros Hv. specialize (Hv r eq_refl). simpl in Hv. lia.
Qed.

(** Each argument bound for either function reads as the original
    argument does in the store [h0] the loop started from. *)
Lemma bind_args_snapshot (h0 : list (list val)) (args : list val) :
  ∀ (stf_func sol_func stf_func' sol_func' : callable) (h h' : list (list val)),
  bind_args args stf_func sol_func h = Some (stf_func', sol_func', h') →
  wf h0 → Forall (val_ok h0) args →
  wf h → (length h0 ≤ length h)%nat →
  (∀ l, (l < length h0)%nat → h !! l = h0 !! l) →
  ∃ cs ds,
    bound stf_func' = bound stf_func ++ cs
    ∧ bound sol_func' = bound sol_func ++ ds
    ∧ Forall2 (λ c arg, ∀ d, snapshot d h' c = snapshot d h0 arg) cs args
    ∧ Forall2 (λ c arg, ∀ d, snapshot d h' c = snapshot d h0 arg) ds args.
Proof.
  induction args as [ | arg rest IH];
    intros stf_func sol_func stf_func' sol_func' h h'; simpl.
  - intros [= <- <- <-] _ _ _ _ _. exists [], []. rewrite !app_nil_r.
    repeat split; constructor.
  - destruct (deepcopy arg h) as [[c h1] | ] eqn:Hc; [ | done].
    destruct (deepcopy arg h1) as [[d h2] | ] eqn:Hd; [ | done].
    intros Hrest Hwf0 [Harg Hargs]%Forall_cons Hwf Hlen0 Hkeep0.
    destruct (deepcopy_fresh _ _ _ _ Hc) as (Hlen1 & Hkeep1 & Hc1 & _).
    destruct (deepcopy_fresh _ _ _ _ Hd) as (Hlen2 & Hkeep2 & Hd2 & _).
    pose proof (deepcopy_wf _ _ _ _ Hc Hwf) as Hwf1.
    pose proof (deepcopy_wf _ _ _ _ Hd Hwf1) as Hwf2.
    destruct (bind_args_frame _ _ _ _ _ _ _ Hrest) as (Hlen' & Hkeep').
    assert (Hkeep01 : ∀ l, (l < length h0)%nat → h1 !! l = h0 !! l).
    { intros l Hl. rewrite Hkeep1; [ | lia]. by apply Hkeep0. }
    destruct (IH _ _ _ _ _ _ Hrest Hwf0 Hargs Hwf2) as (cs & ds & HA & HB & Hcs & Hds).
    { lia. }
    { intros l Hl. rewrite Hkeep2; [ | lia]. by apply Hkeep01. }
    exists (c :: cs), (d :: ds). simpl in HA, HB.
    rewrite <- app_assoc in HA, HB.
    split; [done | ]. split; [done | ]. split.
    + constructor; [ | done]. intros dd.
      rewrite (snapshot_extend h1 h'); [ | done | by eapply in_region_val_ok | ].
      * rewrite (deepcopy_snapshot arg c h h1); [ | done | | done].
        -- by apply snapshot_extend.
        -- by eapply val_ok_mono.
      * intros l Hl. rewrite Hkeep'; [ | lia]. by apply Hkeep2.
    + constructor; [ | done]. intros dd.
      rewrite (snapshot_extend h2 h'); [ | done | by eapply in_region_val_ok | done].
      rewrite (deepcopy_snapshot arg d h1 h2); [ | done | | done].
      * by apply snapshot_extend.
      * eapply val_ok_mono; [ | done]. lia.
Qed.

(** ** The two calls *)

Lemma run_with_timeout_store (func : callable) (h : list (list val)) :
  (run_with_timeout func h).1 = (call func h).1.
Proof.
  unfold run_with_timeout. destruct (call func h) as [h' [v | e]]; simpl; [done | ].
  destruct (is_TimeoutException e); [done | ]. by destruct (is_Exception e).
Qed.

(** The store [test_one_arg_set] ends in is the store after the two calls,
    and the result is given the argument set itself as [inputs]. *)
Lemma test_one_arg_set_store (arg_set : nat) (stf_func sol_func stf_func' sol_func' : callable)
    (h0 h1 h' : list (list val)) (r : result_args) :
  bind_arg_set arg_set stf_func sol_func h0 = Some (stf_func', sol_func', h1) →
  test_one_arg_set arg_set stf_func sol_func h0 = Some (h', Returns r) →
  h' = (call sol_func' (call stf_func' h1).1).1 ∧ inputs r = Ref arg_set.
Proof.
  intros Hbind. unfold test_one_arg_set. rewrite Hbind. unfold run_with_timeout.
  destruct (call stf_func' h1) as [h2 [v | e]]; simpl.
  - destruct (call sol_func' h2) as [h3 [k | e]]; simpl; [ | done].
    by intros [= <- <-].
  - destruct (is_TimeoutException e).
    + destruct (call sol_func' h2) as [h3 [k | e']]; simpl; [ | done].
      by intros [= <- <-].
    + destruct (is_Exception e); [ | done].
      destruct (call sol_func' h2) as [h3 [k | e']]; simpl; [ | done].
      by intros [= <- <-].
Qed.

Lemma Forall2_with_l {A B : Type} (P : A → Prop) (R : A → B → Prop)
    (l : list A) (k : list B) :
  Forall P l → Forall2 R l k → Forall2 (λ x y, P x ∧ R x y) l k.
Proof.
  intros HP HR. induction HR as [ | x y l k Hxy _ IH]; [constructor | ].
  apply Forall_cons in HP as [Hx Hl]. constructor; [done | by apply IH].
Qed.

(** C6: the arguments handed to the student's function and to the
    solution's are independent deep copies.  In a store [h0] without
    dangling references, for functions that work on their arguments only,
    the binding loop returns; each bound argument reads as the original
    argument does; the solution, called after the student's function, still
    reads the original values from its arguments; what the student's call
    was handed and what it returned are left as they were by the solution's
    call; and no object of [h0], so nothing the argument set kept in
    [inputs] leads to, is changed by the copies or by either call. *)
Theorem argument_copies_independent (h0 : list (list val)) (arg_set : nat)
    (args : list val) (stf_func sol_func : callable) :
  wf h0 →
  h0 !! arg_set = Some args →
  bound stf_func = [] →
  bound sol_func = [] →
  confined (fn stf_func) →
  confined (fn sol_func) →
  ∃ stf_func' sol_func' h1,
    bind_arg_set arg_set stf_func sol_func h0 = Some (stf_func', sol_func', h1)
    ∧ let h2 := (call stf_func' h1).1 in
      let h3 := (call sol_func' h2).1 in
      Forall2 (λ c arg, ∀ d, snapshot d h1 c = snapshot d h0 arg)
              (bound stf_func') args
      ∧ Forall2 (λ c arg, ∀ d, snapshot d h2 c = snapshot d h0 arg)
                (bound sol_func') args
      ∧ (∀ l, footprint h2 (bound stf_func') l
              ∨ (∃ v, (call stf_func' h1).2 = Returns v ∧ reach h2 v l) →
              h3 !! l = h2 !! l)
      ∧ (∀ l, (l < length h0)%nat →
              h1 !! l = h0 !! l ∧ h2 !! l = h0 !! l ∧ h3 !! l = h0 !! l)
      ∧ (∀ d, snapshot d h3 (Ref arg_set) = snapshot d h0 (Ref arg_set))
      ∧ (∀ h' r,
           test_one_arg_set arg_set stf_func sol_func h0 = Some (h', Returns r) →
           h' = h3 ∧ inputs r = Ref arg_set).
Proof.
  intros Hwf0 Hargs HbA HbB HcA HcB.
  assert (Hok : Forall (val_ok h0) args).
  { apply Forall_forall. intros v Hv. by eapply Hwf0. }
  destruct (bind_args_total args stf_func sol_func h0 Hwf0 Hok)
    as [[[stf_func' sol_func'] h1] Hbind].
  assert (Hset : bind_arg_set arg_set stf_func sol_func h0
                 = Some (stf_func', sol_func', h1)).
  { unfold bind_arg_set. by rewrite Hargs. }
  exists stf_func', sol_func', h1. split; [done | ].
  destruct (bind_args_separated (length h0) args _ _ _ _ _ _
              (λ _, False) (λ _, False) Hbind)
    as (Hlen1 & Hkeep1 & HfA & HfB & (SA & SB & Hsep)).
  { split; [done | ]. rewrite HbA, HbB.
    split; [done | ]. split; [done | ]. split; [done | ].
    split; [by intros l o r [] | ]. split; [by intros l o r [] | ].
    split; constructor. }
  destruct (bind_args_snapshot h0 args _ _ _ _ _ _ Hbind Hwf0 Hok Hwf0)
    as (cs & ds & HA & HB & Hcs & Hds); [done | done | ].
  rewrite HbA in HA. rewrite HbB in HB. simpl in HA, HB.
  pose proof (bind_args_wf _ _ _ _ _ _ _ Hbind Hwf0) as Hwf1.
  destruct Hsep as (_ & HSA & HSB & Hdisj & HclA & HclB & HinA & HinB).
  assert (HokA : Forall (val_ok h1) (bound stf_func')).
  { eapply Forall_impl; [exact HinA | ]. intros [a | r] Hv; simpl; [done | ].
    specialize (HSA r (Hv r eq_refl)). lia. }
  assert (HokB : Forall (val_ok h1) (bound sol_func')).
  { eapply Forall_impl; [exact HinB | ]. intros [a | r] Hv; simpl; [done | ].
    specialize (HSB r (Hv r eq_refl)). lia. }
  pose proof (test_one_arg_set_store arg_set stf_func sol_func stf_func' sol_func'
                h0 h1) as Hlink.
  revert Hlink. unfold call. rewrite HfA, HfB. intros Hlink.
  pose proof (HcA (bound stf_func') h1) as Hc. simpl in Hc.
  set (h2 := (fn stf_func (bound stf_func') h1).1) in *.
  destruct Hc as (Hc1 & Hc2 & Hc3 & Hc4 & Hc5).
  destruct (Hc5 Hwf1 HokA) as [Hwf2 Hret_ok].
  assert (HfootA : ∀ l, footprint h1 (bound stf_func') l → SA l).
  { intros l. by apply footprint_region. }
  assert (Hkeep2_old : ∀ l, (l < length h0)%nat → h2 !! l = h1 !! l).
  { intros l Hl. apply Hc2; [lia | ]. intros HF%HfootA%HSA. lia. }
  assert (Hkeep2_B : ∀ l, SB l → h2 !! l = h1 !! l).
  { intros l Hl. apply Hc2; [specialize (HSB l Hl); lia | ].
    intros HF%HfootA. by eapply Hdisj. }
  pose proof (closed_in_agree h1 h2 SB HclB Hkeep2_B) as HclB2.
  pose proof (HcB (bound sol_func') h2) as Hr. simpl in Hr.
  set (h3 := (fn sol_func (bound sol_func') h2).1) in *.
  destruct Hr as (Hr1 & Hr2 & _).
  assert (HfootB : ∀ l, footprint h2 (bound sol_func') l → SB l).
  { intros l. by apply footprint_region. }
  assert (Hown : ∀ l, footprint h1 (bound stf_func') l ∨ (length h1 ≤ l)%nat →
                      (l < length h2)%nat → h3 !! l = h2 !! l).
  { intros l Hl Hlt. apply Hr2; [done | ]. intros HF%HfootB.
    destruct Hl as [HA'%HfootA | Hge]; [by eapply Hdisj | ].
    specialize (HSB l HF). lia. }
  assert (Hold : ∀ l, (l < length h0)%nat →
                      h1 !! l = h0 !! l ∧ h2 !! l = h0 !! l ∧ h3 !! l = h0 !! l).
  { intros l Hl.
    assert (h3 !! l = h2 !! l) as ->.
    { apply Hr2; [lia | ]. intros HF%HfootB%HSB. lia. }
    rewrite Hkeep2_old; [ | done]. rewrite Hkeep1; done. }
  simpl. split; [by rewrite HA | ]. split; [ | split; [ | split; [done | split]]].
  - rewrite HB in HinB |- *.
    eapply Forall2_impl; [exact (Forall2_with_l _ _ _ _ HinB Hds) | ].
    simpl. intros c arg [Hc Hread] d. rewrite <- Hread.
    by apply (snapshot_agree h1 h2 SB).
  - intros l Hl.
    assert ((footprint h1 (bound stf_func') l ∨ (length h1 ≤ l)%nat)
            ∧ (l < length h2)%nat) as [Hmine Hlt]; [ | by apply Hown].
    set (own := λ l, footprint h1 (bound stf_func') l ∨ (length h1 ≤ l)%nat).
    destruct Hl as [(v & Hv & Hreach) | (v & Hv & Hreach)].
    + split.
      * apply (reach_closed h2 own v l); [exact Hc3 | | done].
        intros r ->. left. exists (Ref r). split; [done | constructor].
      * eapply (reach_closed h2 (λ l, (l < length h2)%nat) v l);
          [by apply wf_closed | | done].
        intros r ->.
        pose proof (proj1 (Forall_forall _ _) HokA _ Hv) as Hr. simpl in Hr. lia.
    + split.
      * apply (reach_closed h2 own v l); [exact Hc3 | | done].
        intros r ->. by apply Hc4.
      * eapply (reach_closed h2 (λ l, (l < length h2)%nat) v l);
          [by apply wf_closed | | done].
        intros r ->. exact (Hret_ok _ Hv).
  - intros d. apply snapshot_extend; [done | | ].
    + simpl. by eapply lookup_lt_Some.
    + intros l Hl. by apply Hold.
  - intros h' r Hrun. by apply Hlink.
Qed.

(** ** Functions that work on their arguments only *)

Lemma reach_snoc (h : list (list val)) (v : val) (l r : nat) (o : list val) :
  reach h v l → h !! l = Some o → Ref r ∈ o → reach h v r.
Proof.
  intros Hreach Hl Hr. induction Hreach as [l | l o' v l' Hl' Hin _ IH].
  - eapply reach_step; [done | done | constructor].
  - eapply reach_step; [done | done | by apply IH].
Qed.

Lemma own_closed (h : list (list val)) (args : list val) :
  closed_in h (λ l, footprint h args l ∨ (length h ≤ l)%nat).
Proof.
  intros l o r [(v & Hv & Hreach) | Hge] Hl Hr.
  - left. exists v. split; [done | by eapply reach_snoc].
  - apply lookup_lt_Some in Hl. lia.
Qed.

(** A function that changes nothing and returns no reference. *)
Lemma confined_readonly (f : list val → list (list val) → list (list val) * outcome val) :
  (∀ args h, (f args h).1 = h) →
  (∀ args h r, (f args h).2 ≠ Returns (Ref r)) →
  confined f.
Proof.
  intros Hsame Hatom args h. simpl. rewrite Hsame.
  split; [done | ]. split; [done | ]. split; [apply own_closed | ].
  split; [intros r Hr; by apply Hatom in Hr | ].
  intros Hwf _. split; [done | ].
  intros [a | r] Hv; simpl; [done | ]. by apply Hatom in Hv.
Qed.

Lemma confined_returns_len : confined (fn returns_len).
Proof.
  apply confined_readonly; intros args h; simpl.
  - destruct args as [ | [a | l] [ | ? ?]]; try done. by destruct (h !! l).
  - intros r. destruct args as [ | [a | l] [ | ? ?]]; try done. by destruct (h !! l).
Qed.

Lemma confined_appends_zero : confined (fn appends_zero).
Proof.
  intros args h. simpl.
  destruct args as [ | [a | l] [ | ? ?]];
    try (simpl; split; [done | ]; split; [done | ]; split; [apply own_closed | ];
         split; [done | ]; intros Hwf _; split; [done | done]).
  simpl. rewrite length_alter.
  split; [done | ]. split; [ | split; [ | split]].
  - intros l' Hl' Hout. apply list_lookup_alter_ne. intros <-.
    apply Hout. exists (Ref l). split; [by left | constructor].
  - intros l1 o r Hown Ho Hr.
    rewrite list_lookup_alter in Ho. case_decide as Heq.
    + subst l1. destruct (h !! l) as [o0 | ] eqn:Hl; simpl in Ho; [ | done].
      injection Ho as <-. apply elem_of_app in Hr as [Hr | Hr].
      * left. exists (Ref l). split; [by left | ].
        eapply reach_step; [done | done | constructor].
      * by apply list_elem_of_singleton in Hr.
    + by eapply (own_closed h [Ref l] l1 o r).
  - intros r [= <-]. left. exists (Ref l). split; [by left | constructor].
  - intros Hwf [Hl _]%Forall_cons. simpl in Hl. split.
    + intros l1 o v Ho Hv. rewrite list_lookup_alter in Ho.
      assert (val_ok h v) as Hok.
      { case_decide as Heq.
        - subst l1. destruct (h !! l) as [o0 | ] eqn:Hl0; simpl in Ho; [ | done].
          injection Ho as <-. apply elem_of_app in Hv as [Hv | Hv].
          + by eapply Hwf.
          + apply list_elem_of_singleton in Hv. by subst v.
        - by eapply Hwf. }
      destruct v; simpl in *; [done | by rewrite length_alter].
    + intros v [= <-]. simpl. by rewrite length_alter.
Qed.

Lemma wf_heap_12 : wf heap_12.
Proof.
  intros l o v Hl Hv. destruct l as [ | [ | l]]; simpl in Hl; [ | | done].
  - injection Hl as <-. repeat (apply elem_of_cons in Hv as [-> | Hv]; [done | ]).
    by apply elem_of_nil in Hv.
  - injection Hl as <-. apply elem_of_cons in Hv as [-> | Hv]; [simpl; lia | ].
    by apply elem_of_nil in Hv.
Qed.

Lemma argument_copies_independent_witness :
  wf heap_12
  ∧ heap_12 !! 1%nat = Some [Ref 0%nat]
  ∧ bound appends_zero = []
  ∧ bound returns_len = []
  ∧ confined (fn appends_zero)
  ∧ confined (fn returns_len)
  ∧ ∃ stf_func' sol_func' h1,
      bind_arg_set 1%nat appends_zero returns_len heap_12
        = Some (stf_func', sol_func', h1)
      ∧ let h2 := (call stf_func' h1).1 in
        let h3 := (call sol_func' h2).1 in
        Forall2 (λ c arg, ∀ d, snapshot d h1 c = snapshot d heap_12 arg)
                (bound stf_func') [Ref 0%nat]
        ∧ Forall2 (λ c arg, ∀ d, snapshot d h2 c = snapshot d heap_12 arg)
                  (bound sol_func') [Ref 0%nat]
        ∧ (∀ l, footprint h2 (bound stf_func') l
                ∨ (∃ v, (call stf_func' h1).2 = Returns v ∧ reach h2 v l) →
                h3 !! l = h2 !! l)
        ∧ (∀ l, (l < length heap_12)%nat →
                h1 !! l = heap_12 !! l ∧ h2 !! l = heap_12 !! l
                ∧ h3 !! l = heap_12 !! l)
        ∧ (∀ d, snapshot d h3 (Ref 1%nat) = snapshot d heap_12 (Ref 1%nat))
        ∧ (∀ h' r,
             test_one_arg_set 1%nat appends_zero returns_len heap_12
               = Some (h', Returns r) →
             h' = h3 ∧ inputs r = Ref 1%nat).
Proof.
  split; [exact wf_heap_12 | ]. split; [reflexivity | ].
  split; [reflexivity | ]. split; [reflexivity | ].
  split; [exact confined_appends_zero | ]. split; [exact confined_returns_len | ].
  exact (argument_copies_independent heap_12 1%nat [Ref 0%nat]
           appends_zero returns_len wf_heap_12 eq_refl eq_refl eq_refl
           confined_appends_zero confined_returns_len).
Defined.

(** The run on the argument set [[[1, 2]]]: the student's function appends
    to the copy it was handed (object 2); the solution then measures its
    own copy (object 3) and finds 2 elements; the argument set (objects 0
    and 1) is as it was. *)
Example test_one_arg_set_store_run :
  test_one_arg_set 1%nat appends_zero returns_len heap_12
  = Some ([[Atom (AInt 1); Atom (AInt 2)];
          [Ref 0%nat];
          [Atom (AInt 1); Atom (AInt 2); Atom (AInt 0)];
          [Atom (AInt 1); Atom (AInt 2)]],
         Returns {| inputs := Ref 1%nat;
                    expected := Atom (AInt 2);
                    actual := Ref 2%nat;
                    exception_str := None |}).
Proof. reflexivity. Qed.

(** ** Every bound list is a new object *)





